(** * Checkpoint loading of [FineTunedBERTClassifier]

    A shallow embedding of [_init_from_checkpoint]
    (texar/torch/modules/pretrained/bert_finetuned_classifier.py): the four
    name tables, the skip filter, the resolution of a TensorFlow variable
    name to a dotted parameter path, and the loop that writes the loaded
    arrays into the parameter tree of the module. *)

From Stdlib Require Import String Ascii NArith Bool Lia.
From stdpp Require Import gmap strings list.

Local Open Scope string_scope.

(** ** Python string and list primitives used by the loader *)

Module Py.

(** [s.startswith(p)] *)
Definition startswith (s p : string) : bool := String.prefix p s.

(** [s.endswith(suf)]: some tail of [s] is [suf]. *)
Fixpoint endswith (s suf : string) : bool :=
  String.eqb s suf ||
  match s with
  | EmptyString => false
  | String _ s' => endswith s' suf
  end.

(** [s.split(sep)] for a one-character separator: never the empty list,
    and an empty field between two adjacent separators. *)
Fixpoint split (sep : ascii) (s : string) : list string :=
  match s with
  | EmptyString => [EmptyString]
  | String c s' =>
      if Ascii.eqb c sep then EmptyString :: split sep s'
      else match split sep s' with
           | h :: t => String c h :: t
           | [] => [String c EmptyString]
           end
  end.

(** [sep.join(l)] *)
Definition join (sep : string) (l : list string) : string := String.concat sep l.

(** [s.isdigit()] on ASCII text: not empty and decimal digits only. *)
Definition is_digit (c : ascii) : bool :=
  (48 <=? nat_of_ascii c)%nat && (nat_of_ascii c <=? 57)%nat.

Fixpoint all_digits (s : string) : bool :=
  match s with
  | EmptyString => true
  | String c s' => is_digit c && all_digits s'
  end.

Definition isdigit (s : string) : bool :=
  match s with
  | EmptyString => false
  | _ => all_digits s
  end.

(** [s[n:]] for [n >= 0]: the empty string when [s] is shorter than [n]. *)
Fixpoint slice_from (n : nat) (s : string) : string :=
  match n, s with
  | O, _ => s
  | S _, EmptyString => EmptyString
  | S n', String _ s' => slice_from n' s'
  end.

(** A dict literal with string keys and values, in source order;
    [dict_get d k] is [Some d[k]] when [k in d]. *)
Definition dict := list (string * string).

Fixpoint dict_get (d : dict) (k : string) : option string :=
  match d with
  | [] => None
  | (k', v) :: d' => if String.eqb k k' then Some v else dict_get d' k
  end.

Definition dict_keys (d : dict) : list string := map fst d.

(** [tmpl.format(arg)] for a template whose replacement fields are
    auto-numbered [{}]: the first field takes [arg]; a second one asks for a
    positional argument that is not there, which Python refuses. The tables
    of the loader hold exactly one field per template. *)
Fixpoint format_fields (tmpl : string) : nat :=
  match tmpl with
  | String "{" (String "}" rest) => S (format_fields rest)
  | String _ rest => format_fields rest
  | EmptyString => O
  end.

Fixpoint format (tmpl arg : string) : string :=
  match tmpl with
  | String "{" (String "}" rest) => arg +:+ rest
  | String c rest => String c (format rest arg)
  | EmptyString => EmptyString
  end.

(** The text before and after the first [{}] of a template. *)
Fixpoint template_parts (tmpl : string) : option (string * string) :=
  match tmpl with
  | String "{" (String "}" rest) => Some (EmptyString, rest)
  | String c rest =>
      match template_parts rest with
      | Some (pre, post) => Some (String c pre, post)
      | None => None
      end
  | EmptyString => None
  end.

End Py.

(** ** The rule tables (lines 77-111) *)

Definition global_tensor_map : Py.dict :=
  [ ("bert/embeddings/word_embeddings", "word_embedder._embedding");
    ("bert/embeddings/token_type_embeddings", "segment_embedder._embedding");
    ("bert/embeddings/position_embeddings", "position_embedder._embedding");
    ("bert/embeddings/LayerNorm/beta", "encoder.input_normalizer.bias");
    ("bert/embeddings/LayerNorm/gamma", "encoder.input_normalizer.weight") ].

Definition layer_tensor_map : Py.dict :=
  [ ("attention/self/key/bias", "self_attns.{}.K_dense.bias");
    ("attention/self/query/bias", "self_attns.{}.Q_dense.bias");
    ("attention/self/value/bias", "self_attns.{}.V_dense.bias");
    ("attention/output/dense/bias", "self_attns.{}.O_dense.bias");
    ("attention/output/LayerNorm/gamma", "poswise_layer_norm.{}.weight");
    ("attention/output/LayerNorm/beta", "poswise_layer_norm.{}.bias");
    ("intermediate/dense/bias", "poswise_networks.{}._layers.0.bias");
    ("output/dense/bias", "poswise_networks.{}._layers.2.bias");
    ("output/LayerNorm/gamma", "output_layer_norm.{}.weight");
    ("output/LayerNorm/beta", "output_layer_norm.{}.bias") ].

Definition layer_transpose_map : Py.dict :=
  [ ("attention/self/key/kernel", "self_attns.{}.K_dense.weight");
    ("attention/self/query/kernel", "self_attns.{}.Q_dense.weight");
    ("attention/self/value/kernel", "self_attns.{}.V_dense.weight");
    ("attention/output/dense/kernel", "self_attns.{}.O_dense.weight");
    ("intermediate/dense/kernel", "poswise_networks.{}._layers.0.weight");
    ("output/dense/kernel", "poswise_networks.{}._layers.2.weight") ].

Definition pooler_map : Py.dict :=
  [ ("bert/pooler/dense/bias", "pooler.0.bias");
    ("bert/pooler/dense/kernel", "pooler.0.weight") ].

Definition py_prefix : string := "encoder.".

(** The keys and templates of both layer tables. *)
Definition layer_tables : Py.dict := (layer_tensor_map ++ layer_transpose_map)%list.

(** ** Exceptions and the outcome of resolving one name *)

Inductive exn : Type :=
| NameError (msg : string)      (* line 168 *)
| IndexError                    (* [name_tmp[2]] out of range, line 154 *)
| AssertionError                (* a failed shape [assert] *)
| LookupFailed (path : string). (* [_name_to_variable] found no such path *)

Inductive result (A : Type) : Type :=
| Ok (a : A)
| Raise (e : exn).
Arguments Ok {A} a.
Arguments Raise {A} e.

Inductive transform : Type := Identity | Transpose.

Inductive resolution : Type :=
| Skip
| Assign (target_path : string) (tr : transform).

(** The test of lines 126-127. *)
Definition skipped (name : string) : bool :=
  Py.startswith name "cls" || String.eqb name "global_step" ||
  Py.endswith name "adam_m" || Py.endswith name "adam_v".

(** The message of line 168. *)
Definition not_found_msg (name : string) : string :=
  "Variable with name '" +:+ name +:+ "' not found".

(** The [else] branch of lines 150-168, as far as it depends on the name:
    split at "/", take the text after the first six characters of the
    third field, join the fields after it, and look the joined suffix up
    in the two layer tables. *)
Definition resolve_layer (name : string) : result resolution :=
  let name_tmp := Py.split "/" name in
  match name_tmp !! 2%nat with
  | None => Raise IndexError
  | Some seg =>
      let layer_no := Py.slice_from 6 seg in
      let name_tmp := Py.join "/" (drop 3 name_tmp) in
      match Py.dict_get layer_tensor_map name_tmp with
      | Some tmpl => Ok (Assign (py_prefix +:+ Py.format tmpl layer_no) Identity)
      | None =>
          match Py.dict_get layer_transpose_map name_tmp with
          | Some tmpl => Ok (Assign (py_prefix +:+ Py.format tmpl layer_no) Transpose)
          | None => Raise (NameError (not_found_msg name))
          end
      end
  end.

(** The name-dependent part of one iteration (lines 126-168): which
    parameter path the array goes to and whether it is transposed first. *)
Definition resolve (name : string) : result resolution :=
  if skipped name then Ok Skip
  else match Py.dict_get global_tensor_map name with
       | Some v_name => Ok (Assign v_name Identity)
       | None =>
           match Py.dict_get pooler_map name with
           | Some v_name =>
               if Py.endswith name "bias" then Ok (Assign v_name Identity)
               else Ok (Assign v_name Transpose)
           | None => resolve_layer name
           end
       end.

(** ** Arrays

    A numpy array (and the tensor made from it by [torch.from_numpy]) is
    its shape and its elements in row-major order. The loader never
    computes with the elements, so their type is left open. *)

Section Arrays.
Context {A : Type}.

Record ndarray : Type := mk_ndarray { shape : list N; data : list A }.

Definition size_of (dims : list N) : N := fold_right N.mul 1%N dims.

(** The element count agrees with the shape. *)
Definition well_formed (a : ndarray) : Prop :=
  length (data a) = N.to_nat (size_of (shape a)).

(** Row-major position of a multi-index. *)
Fixpoint ravel_from (acc : N) (dims idx : list N) : N :=
  match dims, idx with
  | d :: dims', i :: idx' => ravel_from (acc * d + i) dims' idx'
  | _, _ => acc
  end.
Definition ravel (dims idx : list N) : N := ravel_from 0 dims idx.

(** Multi-index of a row-major position; the dimensions come last axis
    first and so does the result. *)
Fixpoint unravel_rev (rdims : list N) (k : N) : list N :=
  match rdims with
  | [] => []
  | d :: rdims' => (k mod d)%N :: unravel_rev rdims' (k / d)%N
  end.
Definition unravel (dims : list N) (k : N) : list N :=
  rev (unravel_rev (rev dims) k).

(** [a[i0, i1, ...]] *)
Definition item (a : ndarray) (idx : list N) : option A :=
  data a !! N.to_nat (ravel (shape a) idx).

(** [array.squeeze()]: every axis of length one is dropped; the row-major
    order of the elements does not change. *)
Definition squeeze (a : ndarray) : ndarray :=
  {| shape := filter (fun d => d <> 1%N) (shape a); data := data a |}.

(** [np.transpose(array)]: the axes are reversed; the element at
    multi-index [j] of the result is the one at [rev j] of [array]. *)
Definition transposed_source (dims : list N) (k : N) : N :=
  ravel dims (rev (unravel (rev dims) k)).

Definition np_transpose (a : ndarray) : ndarray :=
  {| shape := rev (shape a);
     data := omap (fun k => data a !! N.to_nat (transposed_source (shape a) (N.of_nat k)))
                  (seq 0 (N.to_nat (size_of (shape a)))) |}.

Definition apply_transform (tr : transform) (a : ndarray) : ndarray :=
  match tr with
  | Identity => a
  | Transpose => np_transpose a
  end.

(** ** The parameter tree and one iteration of the loop *)

(** Modelled from the spec: [_name_to_variable] is defined in a base class
    that is not part of this file; the spec gives it as looking a parameter
    up by its dotted path and failing when the path does not exist. The
    tree is the finite map from dotted paths to the tensors stored there. *)
Definition _name_to_variable (tree : gmap string ndarray) (v_name : string)
  : result ndarray :=
  match tree !! v_name with
  | Some pointer => Ok pointer
  | None => Raise (LookupFailed v_name)
  end.

(** What the loop changes: the parameter tree and the local counter [idx]. *)
Record state : Type := mk_state { params : gmap string ndarray; idx : nat }.

(** [pointer = self._name_to_variable(v_name); assert pointer.shape ==
    arr.shape; pointer.data = torch.from_numpy(arr); idx += 1]. *)
Definition assign (v_name : string) (arr : ndarray) (st : state) : result state :=
  match _name_to_variable (params st) v_name with
  | Raise e => Raise e
  | Ok pointer =>
      if decide (shape pointer = shape arr)
      then Ok {| params := <[v_name := arr]> (params st); idx := S (idx st) |}
      else Raise AssertionError
  end.

(** The body of the loop of lines 125-169. An exception leaves before the
    iteration has written anything, so a failed iteration has no state. *)
Definition body (name : string) (array : ndarray) (st : state) : result state :=
  match resolve name with
  | Raise e => Raise e
  | Ok Skip => Ok st
  | Ok (Assign v_name tr) => assign v_name (apply_transform tr array) st
  end.

(** The loop: the state reached, and the exception that ended it if any.
    Iterations before a failing one keep their effect on the tree. *)
Fixpoint loop (items : list (string * ndarray)) (st : state) : state * option exn :=
  match items with
  | [] => (st, None)
  | (name, array) :: rest =>
      match body name array st with
      | Ok st' => loop rest st'
      | Raise e => (st, Some e)
      end
  end.

(** Lines 116-121: every variable listed in the checkpoint is loaded and
    squeezed, names and arrays kept in two parallel lists. The checkpoint
    is the list of (name, stored array) pairs the reader enumerates. *)
Definition load_variables (ckpt : list (string * ndarray))
  : list string * list ndarray :=
  fold_left (fun '(tfnames, arrays) '(name, array) =>
               ((tfnames ++ [name])%list, (arrays ++ [squeeze array])%list))
            ckpt ([], []).

(** [_init_from_checkpoint], from line 116 on. *)
Definition _init_from_checkpoint (ckpt : list (string * ndarray))
    (tree : gmap string ndarray) : state * option exn :=
  let '(tfnames, arrays) := load_variables ckpt in
  loop (zip tfnames arrays) {| params := tree; idx := 0 |}.

End Arrays.

Arguments ndarray A : clear implicits.
Arguments state A : clear implicits.


(** ** Telling formatted templates apart *)

Definition chars (s : string) : list ascii := list_ascii_of_string s.

(** Two texts differ at a position both have. *)
Fixpoint diverge (l1 l2 : list ascii) : bool :=
  match l1, l2 with
  | a :: r1, b :: r2 => negb (Ascii.eqb a b) || diverge r1 r2
  | _, _ => false
  end.

(** Two table entries are the same entry, or their templates differ before
    the field, or agree before it and differ, read from the end, after it:
    in the last two cases no two arguments format them to the same text. *)
Definition never_collide (e1 e2 : string * string) : bool :=
  match Py.template_parts (snd e1), Py.template_parts (snd e2) with
  | Some (pre1, post1), Some (pre2, post2) =>
      (String.eqb (fst e1) (fst e2) && String.eqb pre1 pre2 && String.eqb post1 post2)
      || diverge (chars pre1) (chars pre2)
      || (String.eqb pre1 pre2 && diverge (rev (chars post1)) (rev (chars post2)))
  | _, _ => false
  end.

(** The names the loader is written for: the keys of the Global and
    Pooler tables and the names under [bert/encoder/layer_]. *)
Definition expected_name (name : string) : Prop :=
  In name (Py.dict_keys (global_tensor_map ++ pooler_map)%list) \/
  exists r, name = "bert/encoder/layer_" +:+ r.

(** The path an iteration on [name] writes to, if it writes at all. *)
Definition target_of (name : string) : option string :=
  match resolve name with
  | Ok (Assign v_name _) => Some v_name
  | _ => None
  end.

(** Two names take the layer branch with the same layer text and the same
    suffix, a key of the layer tables. *)
Definition same_layer_slot (n1 n2 : string) : Prop :=
  exists a0 a1 seg1 rest1 b0 b1 seg2 rest2,
    Py.dict_get global_tensor_map n1 = None /\
    Py.dict_get pooler_map n1 = None /\
    Py.dict_get global_tensor_map n2 = None /\
    Py.dict_get pooler_map n2 = None /\
    Py.split "/" n1 = a0 :: a1 :: seg1 :: rest1 /\
    Py.split "/" n2 = b0 :: b1 :: seg2 :: rest2 /\
    Py.slice_from 6 seg1 = Py.slice_from 6 seg2 /\
    Py.join "/" rest1 = Py.join "/" rest2 /\
    In (Py.join "/" rest1) (Py.dict_keys layer_tables).

(** ** What a pass writes *)

Section Writes.
Context {A : Type}.

(** Two trees hold parameters of the same shapes at the same paths. *)
Definition same_shapes (m1 m2 : gmap string (ndarray A)) : Prop :=
  forall k, shape <$> m1 !! k = shape <$> m2 !! k.

(** The checkpoint entries as the loop receives them (lines 116-121). *)
Definition loaded (ckpt : list (string * ndarray A)) : list (string * ndarray A) :=
  map (fun na => (fst na, squeeze (snd na))) ckpt.

(** The path and the array of the assignment an iteration makes, if it
    makes one: lines 134-137, 140-148 and 157-166 without the shape check. *)
Definition write_of (item : string * ndarray A) : option (string * ndarray A) :=
  match resolve (fst item) with
  | Ok (Assign v_name tr) => Some (v_name, apply_transform tr (snd item))
  | _ => None
  end.

Definition writes (items : list (string * ndarray A)) : list (string * ndarray A) :=
  omap write_of items.

(** The array of the last write to path [k]. *)
Fixpoint last_write (ws : list (string * ndarray A)) (k : string) : option (ndarray A) :=
  match ws with
  | [] => None
  | (v_name, arr) :: ws' =>
      match last_write ws' k with
      | Some arr' => Some arr'
      | None => if decide (v_name = k) then Some arr else None
      end
  end.

(** An iteration on [item] against [tree] raises nothing: the name is
    skipped, or it resolves to a path of [tree] whose parameter has the
    shape of the (transposed) array. *)
Definition accepted (tree : gmap string (ndarray A)) (item : string * ndarray A) : bool :=
  match resolve (fst item) with
  | Ok Skip => true
  | Ok (Assign v_name tr) =>
      match tree !! v_name with
      | Some pointer =>
          bool_decide (shape pointer = shape (apply_transform tr (snd item)))
      | None => false
      end
  | Raise _ => false
  end.

(** The exception an iteration on [item] against [tree] raises, if any. *)
Definition rejection (tree : gmap string (ndarray A)) (item : string * ndarray A)
  : option exn :=
  match resolve (fst item) with
  | Ok Skip => None
  | Ok (Assign v_name tr) =>
      match tree !! v_name with
      | Some pointer =>
          if decide (shape pointer = shape (apply_transform tr (snd item)))
          then None else Some AssertionError
      | None => Some (LookupFailed v_name)
      end
  | Raise e => Some e
  end.

End Writes.

(** [s.count(c)] for a one-character [c]. *)
Fixpoint count_char (c : ascii) (s : string) : nat :=
  match s with
  | EmptyString => O
  | String d s' => (if Ascii.eqb d c then 1 else 0) + count_char c s'
  end.

(** A multi-index addresses an element of an array of dimensions [dims]:
    one index per axis, each below the length of its axis. *)
Definition in_bounds (idx dims : list N) : Prop := Forall2 N.lt idx dims.

(** Position of a multi-index given last axis first. *)
Fixpoint ravel_rev (rdims ridx : list N) : N :=
  match rdims, ridx with
  | d :: rdims', i :: ridx' => (i + d * ravel_rev rdims' ridx')%N
  | _, _ => 0%N
  end.

(** ** [load_pretrained_config] (lines 31-64) *)

Module Config.

Inductive exn : Type :=
| AttributeError               (* an attribute read on [None] or on a dict *)
| ValueError (msg : string)    (* line 55 *)
| TypeError                    (* [os.path.join] given [None] *)
| External (what : string).    (* raised by a collaborator *)

Inductive result (T : Type) : Type :=
| Ok (v : T)
| Raise (e : exn).
Arguments Ok {T} v.
Arguments Raise {T} e.

(** The [hparams] argument: [None] (the default), a dict, or an object
    with the attributes [pretrained_model_name] and [cache_dir], either of
    which may hold [None]. *)
Inductive hparams_arg : Type :=
| HNone
| HDict
| HObject (hp_pretrained_model_name hp_cache_dir : option string).

(** [hparams.pretrained_model_name] and [hparams.cache_dir]: [None] and a
    dict have no such attribute. *)
Definition get_pretrained_model_name (hparams : hparams_arg) : result (option string) :=
  match hparams with
  | HObject n _ => Ok n
  | _ => Raise AttributeError
  end.

Definition get_cache_dir (hparams : hparams_arg) : result (option string) :=
  match hparams with
  | HObject _ c => Ok c
  | _ => Raise AttributeError
  end.

Definition value_error_msg : string :=
  "Pre-trained model name and directory should" +:+
  "be defined in the fine tuned BERT model.".

Section Load.
(** The collaborators that are not in this file: the platform's join of two
    path components, [_transform_config] of the base class, its
    [default_hparams] and the constructor [HParams]. *)
Context {C D H : Type}.
Variable path_join : string -> string -> string.
Variable _transform_config : string -> string -> result C.
Variable default_hparams : D.
Variable HParams : C -> D -> result H.

(** The attributes of [self] the method writes. *)
Record self_t : Type := mk_self {
  self_pretrained_model_name : option string;
  self_cache_dir : option string;
  self_pretrained_model_dir : option string;
  self_hparams : option H }.

(** [os.path.join(a, b)]: a first component that is [None] is refused. *)
Definition os_path_join (a : option string) (b : string) : result string :=
  match a with
  | None => Raise TypeError
  | Some a' => Ok (path_join a' b)
  end.

(** The method: the attributes of [self] after the call, and the exception
    that ended it if any. An attribute written before an exception keeps
    its new value. *)
Definition load_pretrained_config (self : self_t)
    (pretrained_model_name cache_dir : option string) (hparams : hparams_arg)
  : self_t * option exn :=
  match (match pretrained_model_name with
         | None => get_pretrained_model_name hparams
         | Some _ => Ok pretrained_model_name
         end) with
  | Raise e => (self, Some e)
  | Ok name =>
      let self := {| self_pretrained_model_name := name;
                     self_cache_dir := self_cache_dir self;
                     self_pretrained_model_dir := self_pretrained_model_dir self;
                     self_hparams := self_hparams self |} in
      match (match cache_dir with
             | None => get_cache_dir hparams
             | Some _ => Ok cache_dir
             end) with
      | Raise e => (self, Some e)
      | Ok dir =>
          let self := {| self_pretrained_model_name := self_pretrained_model_name self;
                         self_cache_dir := dir;
                         self_pretrained_model_dir := self_pretrained_model_dir self;
                         self_hparams := self_hparams self |} in
          match self_pretrained_model_name self, self_cache_dir self with
          | Some model_name, Some _ =>
              (* line 58 joins the argument [cache_dir], not [self.cache_dir] *)
              match os_path_join cache_dir model_name with
              | Raise e => (self, Some e)
              | Ok model_dir =>
                  let self :=
                    {| self_pretrained_model_name := self_pretrained_model_name self;
                       self_cache_dir := self_cache_dir self;
                       self_pretrained_model_dir := Some model_dir;
                       self_hparams := self_hparams self |} in
                  match _transform_config model_name model_dir with
                  | Raise e => (self, Some e)
                  | Ok pretrained_model_hparams =>
                      match HParams pretrained_model_hparams default_hparams with
                      | Raise e => (self, Some e)
                      | Ok h =>
                          ({| self_pretrained_model_name := self_pretrained_model_name self;
                              self_cache_dir := self_cache_dir self;
                              self_pretrained_model_dir := self_pretrained_model_dir self;
                              self_hparams := Some h |}, None)
                      end
                  end
              end
          | _, _ => (self, Some (ValueError value_error_msg))
          end
      end
  end.

End Load.

End Config.

(** * Properties *)

(** ** Sample runs of the resolver *)

Example resolve_query_kernel :
  resolve "bert/encoder/layer_0/attention/self/query/kernel"
  = Ok (Assign "encoder.self_attns.0.Q_dense.weight" Transpose).
Proof. reflexivity. Qed.

Example resolve_pooler_kernel :
  resolve "bert/pooler/dense/kernel" = Ok (Assign "pooler.0.weight" Transpose).
Proof. reflexivity. Qed.

Example resolve_layer11 :
  resolve "bert/encoder/layer_11/output/LayerNorm/beta"
  = Ok (Assign "encoder.output_layer_norm.11.bias" Identity).
Proof. reflexivity. Qed.

Example split_examples :
  Py.split "/" "a/b//c/" = ["a"; "b"; ""; "c"; ""] /\ Py.split "/" "" = [""].
Proof. split; reflexivity. Qed.

Example resolve_global_step : resolve "global_step" = Ok Skip.
Proof. reflexivity. Qed.

Example resolve_unknown_suffix :
  resolve "bert/encoder/layer_0/attention/self/query/scale"
  = Raise (NameError
      "Variable with name 'bert/encoder/layer_0/attention/self/query/scale' not found").
Proof. reflexivity. Qed.

(** ** Strings *)

Lemma startswith_app p r : Py.startswith (p +:+ r) p = true.
Proof.
  unfold Py.startswith. induction p as [|c p IH]; simpl.
  - by destruct r.
  - destruct (ascii_dec c c); [exact IH | congruence].
Qed.

Lemma endswith_app p suf : Py.endswith (p +:+ suf) suf = true.
Proof.
  induction p as [|c p IH]; simpl.
  - destruct suf; simpl; [done|]. by rewrite Ascii.eqb_refl, String.eqb_refl.
  - rewrite IH. apply orb_true_r.
Qed.

Lemma endswith_inv s suf :
  Py.endswith s suf = true -> exists p, s = p +:+ suf.
Proof.
  induction s as [|c s IH]; cbn [Py.endswith]; intros H.
  - destruct suf; [by exists "" | done].
  - apply orb_true_iff in H as [H|H].
    + apply String.eqb_eq in H. by exists "".
    + destruct (IH H) as [p ->]. by exists (String c p).
Qed.

Lemma startswith_inv s p :
  Py.startswith s p = true -> exists r, s = p +:+ r.
Proof.
  unfold Py.startswith. revert s. induction p as [|c p IH]; intros s H.
  - by exists s.
  - destruct s as [|d s]; simpl in H; [done|].
    destruct (ascii_dec c d) as [->|]; [|done].
    destruct (IH _ H) as [r ->]. by exists r.
Qed.

Lemma slice_from_app p r : Py.slice_from (String.length p) (p +:+ r) = r.
Proof. induction p; simpl; auto. Qed.

Lemma dict_get_In d k v : Py.dict_get d k = Some v -> In (k, v) d.
Proof.
  induction d as [|[k' v'] d IH]; simpl; [done|].
  destruct (String.eqb_spec k k') as [->|_]; [intros [= ->]; by left | auto].
Qed.

Lemma dict_get_None d k : Py.dict_get d k = None <-> ~ In k (Py.dict_keys d).
Proof.
  induction d as [|[k' v'] d IH]; simpl; [tauto|].
  destruct (String.eqb_spec k k') as [->|Hne].
  - split; [done | intros H; exfalso; apply H; by left].
  - rewrite IH. split; [intros H [?|?]; [congruence | auto] | tauto].
Qed.

(** ** The loop *)

Section Loop.
Context {A : Type}.
Implicit Types (a array : ndarray A) (st : state A) (tree : gmap string (ndarray A)).

Lemma load_variables_spec (ckpt : list (string * ndarray A)) :
  load_variables ckpt = (map fst ckpt, map (fun na => squeeze (snd na)) ckpt).
Proof.
  unfold load_variables.
  enough (H : forall ns ars,
    fold_left (fun '(tfnames, arrays) '(name, array) =>
                 ((tfnames ++ [name])%list, (arrays ++ [squeeze array])%list))
              ckpt (ns, ars)
    = ((ns ++ map fst ckpt)%list, (ars ++ map (fun na => squeeze (snd na)) ckpt)%list))
    by apply (H [] []).
  induction ckpt as [|[n a] ckpt IH]; intros ns ars; simpl.
  - by rewrite !app_nil_r.
  - rewrite IH. by rewrite <- !app_assoc.
Qed.

Lemma zip_loaded (ckpt : list (string * ndarray A)) :
  zip (map fst ckpt) (map (fun na => squeeze (snd na)) ckpt)
  = map (fun na => (fst na, squeeze (snd na))) ckpt.
Proof. induction ckpt as [|[n a] ckpt IH]; simpl; [done | by rewrite IH]. Qed.

Lemma init_from_checkpoint_unfold (ckpt : list (string * ndarray A)) tree :
  _init_from_checkpoint ckpt tree
  = loop (map (fun na => (fst na, squeeze (snd na))) ckpt)
         {| params := tree; idx := 0 |}.
Proof.
  unfold _init_from_checkpoint. rewrite load_variables_spec. by rewrite zip_loaded.
Qed.

Lemma loop_app (l1 l2 : list (string * ndarray A)) st st1 :
  loop l1 st = (st1, None) -> loop (l1 ++ l2)%list st = loop l2 st1.
Proof.
  revert st. induction l1 as [|[n a] l1 IH]; intros st; simpl.
  - by intros [= ->].
  - destruct (body n a st); [apply IH | done].
Qed.

Lemma body_skip name a st : skipped name = true -> body name a st = Ok st.
Proof. intros H. unfold body, resolve. by rewrite H. Qed.

Lemma body_assign name a st v_name tr pointer :
  resolve name = Ok (Assign v_name tr) ->
  params st !! v_name = Some pointer ->
  shape pointer = shape (apply_transform tr a) ->
  body name a st
  = Ok {| params := <[v_name := apply_transform tr a]> (params st);
          idx := S (idx st) |}.
Proof.
  intros Hr Hp Hs. unfold body, assign, _name_to_variable.
  rewrite Hr, Hp. by rewrite decide_True.
Qed.

Lemma body_mismatch name a st v_name tr pointer :
  resolve name = Ok (Assign v_name tr) ->
  params st !! v_name = Some pointer ->
  shape pointer <> shape (apply_transform tr a) ->
  body name a st = Raise AssertionError.
Proof.
  intros Hr Hp Hs. unfold body, assign, _name_to_variable.
  rewrite Hr, Hp. by rewrite decide_False.
Qed.

End Loop.

(** ** The skip filter *)

(** The test of lines 126-127 accepts exactly the names that start with
    [cls], are [global_step], or end with [adam_m] or [adam_v]. *)
Lemma skipped_spec name :
  skipped name = true <->
  (exists r, name = "cls" +:+ r) \/ name = "global_step" \/
  (exists p, name = p +:+ "adam_m") \/ (exists p, name = p +:+ "adam_v").
Proof.
  unfold skipped. rewrite !orb_true_iff. split.
  - intros [[[H|H]|H]|H].
    + left. by apply startswith_inv.
    + right; left. by apply String.eqb_eq.
    + right; right; left. by apply endswith_inv.
    + right; right; right. by apply endswith_inv.
  - intros [[r ->]|[->|[[p ->]|[p ->]]]].
    + left; left; left. apply startswith_app.
    + left; left; by right.
    + left; right. apply endswith_app.
    + right. apply endswith_app.
Qed.

(** C2. A name accepted by the skip filter (it starts with [cls], is
    [global_step], or ends with [adam_m] or [adam_v]) resolves to [Skip]
    whatever the mapping tables hold for it; its iteration raises nothing
    and leaves the parameter tree and the counter as they were, so the loop
    goes on exactly as if the entry were not there. *)
Theorem skip_filter_precedence {A : Type} (name : string)
    (array : ndarray A) (st : state A) (rest : list (string * ndarray A)) :
  (exists r, name = "cls" +:+ r) \/ name = "global_step" \/
  (exists p, name = p +:+ "adam_m") \/ (exists p, name = p +:+ "adam_v") ->
  resolve name = Ok Skip /\
  body name array st = Ok st /\
  loop ((name, array) :: rest) st = loop rest st.
Proof.
  intros H. apply skipped_spec in H.
  split; [unfold resolve; by rewrite H|].
  split; [by apply body_skip|].
  cbn [loop]. by rewrite body_skip.
Qed.

(** A name of the auxiliary head whose suffix is a key of the layer table:
    on its own the layer branch would assign it, the filter skips it. *)
Lemma skip_filter_precedence_witness :
  let name := "cls/seq_relationship/layer_1/output/dense/bias" in
  let array := {| shape := [2%N]; data := [7%N; 9%N] |} in
  let st := {| params := (∅ : gmap string (ndarray N)); idx := 0 |} in
  resolve_layer name
  = Ok (Assign "encoder.poswise_networks.1._layers.2.bias" Identity) /\
  resolve name = Ok Skip /\
  body name array st = Ok st /\
  loop [(name, array)] st = loop [] st.
Proof.
  split; [reflexivity|].
  apply (skip_filter_precedence
           "cls/seq_relationship/layer_1/output/dense/bias"
           {| shape := [2%N]; data := [7%N; 9%N] |}
           {| params := ∅; idx := 0 |} []).
  left. exists "/seq_relationship/layer_1/output/dense/bias". reflexivity.
Defined.

(** ** The Global and Pooler tables *)

Lemma dict_get_NoDup d k v :
  NoDup (Py.dict_keys d) -> In (k, v) d -> Py.dict_get d k = Some v.
Proof.
  induction d as [|[k' v'] d IH]; simpl; [done|].
  intros Hnd [Heq|Hin].
  - injection Heq as -> ->. by rewrite String.eqb_refl.
  - apply NoDup_cons in Hnd as [Hk Hnd].
    destruct (String.eqb_spec k k') as [->|_]; [|by apply IH].
    exfalso. apply Hk. apply list_elem_of_In.
    change k' with (fst (k', v)). by apply in_map.
Qed.

Lemma dict_get_reordered d0 d k v :
  NoDup (Py.dict_keys d0) -> d ≡ₚ d0 -> In (k, v) d0 ->
  Py.dict_get d k = Some v.
Proof.
  intros Hnd Hp Hin. apply dict_get_NoDup.
  - unfold Py.dict_keys in *.
    assert (Hk : map fst d ≡ₚ map fst d0) by by apply Permutation_map.
    by rewrite Hk.
  - eapply Permutation_in; [symmetry; exact Hp | exact Hin].
Qed.

Lemma global_pooler_keys_NoDup :
  NoDup (Py.dict_keys (global_tensor_map ++ pooler_map)%list).
Proof.
  apply (bool_decide_unpack _). vm_compute. reflexivity.
Qed.

(** C3. Every pair of the Global and Pooler tables resolves, under its
    exact source name, to an assignment to its target path: untransposed
    for a Global entry and for the Pooler bias, transposed for the Pooler
    kernel. The keys of the two tables are pairwise distinct, so the entry
    found is the same in whatever order the tables and their entries are
    consulted. *)
Theorem table_entries_resolve (s t : string) :
  In (s, t) (global_tensor_map ++ pooler_map)%list ->
  (exists tr, resolve s = Ok (Assign t tr) /\
     (In (s, t) global_tensor_map -> tr = Identity) /\
     (s = "bert/pooler/dense/bias" -> tr = Identity) /\
     (s = "bert/pooler/dense/kernel" -> tr = Transpose)) /\
  (forall d : Py.dict,
     d ≡ₚ (global_tensor_map ++ pooler_map)%list -> Py.dict_get d s = Some t) /\
  (forall d : Py.dict,
     d ≡ₚ (pooler_map ++ global_tensor_map)%list -> Py.dict_get d s = Some t).
Proof.
  intros Hin. split; [|split].
  - simpl in Hin.
    repeat (destruct Hin as [Hin|Hin];
      [injection Hin as <- <-; eexists; split; [reflexivity|];
       repeat split; first [done | simpl; intros H; repeat destruct H as [H|H]; done]|]).
    destruct Hin.
  - intros d Hd. eapply dict_get_reordered; eauto using global_pooler_keys_NoDup.
  - intros d Hd. eapply dict_get_reordered; eauto using global_pooler_keys_NoDup.
    rewrite Hd. apply Permutation_app_comm.
Qed.

Lemma table_entries_resolve_witness :
  (exists tr, resolve "bert/pooler/dense/kernel" = Ok (Assign "pooler.0.weight" tr) /\
     (In ("bert/pooler/dense/kernel", "pooler.0.weight") global_tensor_map -> tr = Identity) /\
     ("bert/pooler/dense/kernel" = "bert/pooler/dense/bias" -> tr = Identity) /\
     ("bert/pooler/dense/kernel" = "bert/pooler/dense/kernel" -> tr = Transpose)) /\
  (forall d : Py.dict,
     d ≡ₚ (global_tensor_map ++ pooler_map)%list ->
     Py.dict_get d "bert/pooler/dense/kernel" = Some "pooler.0.weight") /\
  (forall d : Py.dict,
     d ≡ₚ (pooler_map ++ global_tensor_map)%list ->
     Py.dict_get d "bert/pooler/dense/kernel" = Some "pooler.0.weight").
Proof.
  apply (table_entries_resolve "bert/pooler/dense/kernel" "pooler.0.weight").
  simpl. do 6 right. left. reflexivity.
Defined.

(** ** The layer tables *)

(** Case analysis on a membership in a literal table. *)
Ltac table_cases H :=
  cbv [layer_tables global_tensor_map pooler_map layer_tensor_map
       layer_transpose_map app] in H;
  cbn [In] in H;
  repeat (destruct H as [H|H]; [injection H as <- <-|]);
  [..|destruct H].

(** A membership in a literal table that no entry satisfies. *)
Ltac table_absurd H :=
  cbv [layer_tables global_tensor_map pooler_map layer_tensor_map
       layer_transpose_map app] in H;
  cbn [In] in H;
  repeat (destruct H as [H|H]; [discriminate H|]);
  destruct H.

(** Provide the two halves of a literal template around its field. *)
Ltac split_template tmpl :=
  let r := eval vm_compute in (Py.template_parts tmpl) in
  lazymatch r with
  | Some (?pre, ?post) => exists pre, post
  end.

(** Every template of the layer tables has one field, and formatting it
    puts the argument, as it is, between the text around the field. *)
Lemma layer_template_format k tmpl :
  In (k, tmpl) layer_tables ->
  exists pre post, tmpl = pre +:+ "{}" +:+ post /\
    Py.format_fields tmpl = 1 /\
    forall arg, Py.format tmpl arg = pre +:+ arg +:+ post.
Proof.
  intros H. table_cases H;
    match goal with |- exists _ _, ?t = _ /\ _ => split_template t end;
    repeat split.
Qed.

Lemma layer_tables_disjoint k t1 t2 :
  In (k, t1) layer_tensor_map -> In (k, t2) layer_transpose_map -> False.
Proof.
  intros H1 H2. table_cases H1; table_absurd H2.
Qed.

Lemma layer_keys_NoDup : NoDup (Py.dict_keys layer_tables).
Proof. apply (bool_decide_unpack _). vm_compute. reflexivity. Qed.

Lemma layer_tables_get sfx :
  Py.dict_get layer_tables sfx
  = match Py.dict_get layer_tensor_map sfx with
    | Some t => Some t
    | None => Py.dict_get layer_transpose_map sfx
    end.
Proof.
  unfold layer_tables. induction layer_tensor_map as [|[k v] d IH]; simpl; [done|].
  by destruct (String.eqb sfx k).
Qed.

Lemma resolve_layer_unfold name s0 s1 seg rest :
  Py.split "/" name = s0 :: s1 :: seg :: rest ->
  resolve_layer name
  = match Py.dict_get layer_tensor_map (Py.join "/" rest) with
    | Some tmpl =>
        Ok (Assign (py_prefix +:+ Py.format tmpl (Py.slice_from 6 seg)) Identity)
    | None =>
        match Py.dict_get layer_transpose_map (Py.join "/" rest) with
        | Some tmpl =>
            Ok (Assign (py_prefix +:+ Py.format tmpl (Py.slice_from 6 seg)) Transpose)
        | None => Raise (NameError (not_found_msg name))
        end
    end.
Proof. intros H. unfold resolve_layer. rewrite H. reflexivity. Qed.

Lemma resolve_unmatched name :
  skipped name = false ->
  Py.dict_get global_tensor_map name = None ->
  Py.dict_get pooler_map name = None ->
  resolve name = resolve_layer name.
Proof. intros Hs Hg Hp. unfold resolve. by rewrite Hs, Hg, Hp. Qed.

(** A key of the layer tables is not empty, so a name whose joined suffix
    is one has a third field. *)
Lemma suffix_needs_third_field name sfx tmpl :
  sfx = Py.join "/" (drop 3 (Py.split "/" name)) ->
  In (sfx, tmpl) layer_tables ->
  exists s0 s1 seg rest, Py.split "/" name = s0 :: s1 :: seg :: rest.
Proof.
  intros Hsfx Hin.
  destruct (Py.split "/" name) as [|s0 [|s1 [|seg rest]]]; [| | |by eauto 6];
    simpl in Hsfx; subst sfx; exfalso; table_absurd Hin.
Qed.

(** C4. A name that is not skipped and is in neither the Global nor the
    Pooler table is split at "/"; the layer index is the text of the third
    field after its first six characters (after [layer_] when the field
    starts so), the suffix is the fields after the third joined by "/".
    When the suffix is a key of a layer table the name resolves to
    [encoder.] followed by the table's template with the layer index in
    place of its field: untransposed for the plain table, transposed for
    the transpose table. *)
Theorem layer_entries_resolve (name sfx tmpl : string) :
  skipped name = false ->
  Py.dict_get global_tensor_map name = None ->
  Py.dict_get pooler_map name = None ->
  sfx = Py.join "/" (drop 3 (Py.split "/" name)) ->
  In (sfx, tmpl) layer_tables ->
  exists seg pre post tr,
    Py.split "/" name !! 2%nat = Some seg /\
    tmpl = pre +:+ "{}" +:+ post /\
    resolve name
    = Ok (Assign ("encoder." +:+ pre +:+ Py.slice_from 6 seg +:+ post) tr) /\
    (In (sfx, tmpl) layer_tensor_map -> tr = Identity) /\
    (In (sfx, tmpl) layer_transpose_map -> tr = Transpose) /\
    (forall i, seg = "layer_" +:+ i -> Py.slice_from 6 seg = i).
Proof.
  intros Hs Hg Hp Hsfx Hin.
  destruct (suffix_needs_third_field _ _ _ Hsfx Hin) as (s0 & s1 & seg & rest & Hsplit).
  destruct (layer_template_format _ _ Hin) as (pre & post & Htmpl & _ & Hfmt).
  rewrite Hsplit in Hsfx.
  change (drop 3 (s0 :: s1 :: seg :: rest)) with rest in Hsfx.
  assert (Hget : Py.dict_get layer_tables sfx = Some tmpl)
    by (apply dict_get_NoDup; [apply layer_keys_NoDup | exact Hin]).
  rewrite layer_tables_get in Hget.
  exists seg, pre, post.
  rewrite (resolve_unmatched _ Hs Hg Hp), (resolve_layer_unfold _ _ _ _ _ Hsplit).
  rewrite <- Hsfx, Hsplit.
  destruct (Py.dict_get layer_tensor_map sfx) as [t|] eqn:Hplain.
  - injection Hget as ->. exists Identity. rewrite Hfmt.
    repeat split; try done.
    + intros Ht. exfalso. eapply layer_tables_disjoint; [|exact Ht].
      by apply dict_get_In.
    + intros i ->. apply (slice_from_app "layer_").
  - rewrite Hget. exists Transpose. rewrite Hfmt.
    repeat split; try done.
    + intros Ht. apply dict_get_None in Hplain. exfalso. apply Hplain.
      unfold Py.dict_keys. change sfx with (fst (sfx, tmpl)). by apply in_map.
    + intros i ->. apply (slice_from_app "layer_").
Qed.

Lemma layer_entries_resolve_witness :
  let name := "bert/encoder/layer_7/attention/output/dense/kernel" in
  exists seg pre post tr,
    Py.split "/" name !! 2%nat = Some seg /\
    "self_attns.{}.O_dense.weight" = pre +:+ "{}" +:+ post /\
    resolve name
    = Ok (Assign ("encoder." +:+ pre +:+ Py.slice_from 6 seg +:+ post) tr) /\
    (In ("attention/output/dense/kernel", "self_attns.{}.O_dense.weight")
        layer_tensor_map -> tr = Identity) /\
    (In ("attention/output/dense/kernel", "self_attns.{}.O_dense.weight")
        layer_transpose_map -> tr = Transpose) /\
    (forall i, seg = "layer_" +:+ i -> Py.slice_from 6 seg = i).
Proof.
  apply (layer_entries_resolve
           "bert/encoder/layer_7/attention/output/dense/kernel"
           "attention/output/dense/kernel" "self_attns.{}.O_dense.weight");
    try reflexivity.
  unfold layer_tables. simpl. do 13 right. left. reflexivity.
Defined.

(** ** Arrays: transposition *)

Example transpose_2x3 :
  np_transpose {| shape := [2; 3]%N; data := [1; 2; 3; 4; 5; 6]%N |}
  = {| shape := [3; 2]%N; data := [1; 4; 2; 5; 3; 6]%N |}.
Proof. reflexivity. Qed.

Example transpose_2x2x2 :
  np_transpose {| shape := [2; 2; 2]%N; data := [0; 1; 2; 3; 4; 5; 6; 7]%N |}
  = {| shape := [2; 2; 2]%N; data := [0; 4; 2; 6; 1; 5; 3; 7]%N |}.
Proof. reflexivity. Qed.

Example transpose_vector :
  np_transpose {| shape := [3]%N; data := [5; 6; 7]%N |}
  = {| shape := [3]%N; data := [5; 6; 7]%N |}.
Proof. reflexivity. Qed.

Example squeeze_1x3x1 :
  squeeze {| shape := [1; 3; 1]%N; data := [5; 6; 7]%N |}
  = {| shape := [3]%N; data := [5; 6; 7]%N |}.
Proof. reflexivity. Qed.

Section Transposition.
Context {A : Type}.
Implicit Types (a array : ndarray A).

Lemma omap_total_lookup {B} (f : nat -> option B) (l : list nat) (k : nat) :
  (forall x, x ∈ l -> is_Some (f x)) ->
  omap f l !! k = l !! k ≫= f.
Proof.
  revert k. induction l as [|x l IH]; intros k Hall; [done|].
  destruct (Hall x) as [y Hy]; [by left|].
  cbn [omap list_omap]. rewrite Hy.
  destruct k as [|k]; simpl; [by rewrite Hy|].
  apply IH. intros z Hz. apply Hall. by right.
Qed.

Lemma transposed_source_2d (a b k : N) :
  transposed_source [a; b] k = ((k mod a) * b + (k / a) mod b)%N.
Proof. unfold transposed_source, unravel, ravel. simpl. lia. Qed.

Lemma transposed_source_2d_at (a b i j : N) :
  (i < a)%N -> (j < b)%N ->
  transposed_source [a; b] (j * a + i) = (i * b + j)%N.
Proof.
  intros Hi Hj. rewrite transposed_source_2d.
  assert (Hq : ((j * a + i) / a = j)%N)
    by (symmetry; apply (N.div_unique _ _ j i); lia).
  assert (Hr : ((j * a + i) mod a = i)%N)
    by (symmetry; apply (N.mod_unique _ _ j i); lia).
  rewrite Hq, Hr. by rewrite (N.mod_small j b).
Qed.

Lemma transposed_source_2d_bound (a b k : N) :
  (k < a * b)%N -> (transposed_source [a; b] k < a * b)%N.
Proof.
  intros Hk. rewrite transposed_source_2d.
  assert (a <> 0%N) by lia. assert (b <> 0%N) by lia.
  pose proof (N.mod_upper_bound k a ltac:(done)).
  pose proof (N.mod_upper_bound (k / a) b ltac:(done)).
  nia.
Qed.

(** On a well-formed matrix the transpose holds, at row [j] and column
    [i], the element the matrix holds at row [i] and column [j]. *)
Lemma np_transpose_item_2d array (a b i j : N) :
  shape array = [a; b] -> well_formed array ->
  (i < a)%N -> (j < b)%N ->
  exists x, item array [i; j] = Some x /\ item (np_transpose array) [j; i] = Some x.
Proof.
  intros Hsh Hwf Hi Hj. unfold well_formed in Hwf. rewrite Hsh in Hwf.
  assert (Hsz : size_of [a; b] = (a * b)%N) by (simpl; lia).
  rewrite Hsz in Hwf.
  assert (Hlt : (i * b + j < a * b)%N) by nia.
  destruct (lookup_lt_is_Some_2 (data array) (N.to_nat (i * b + j))) as [x Hx]; [lia|].
  exists x. unfold item, np_transpose. rewrite Hsh. cbn [shape data rev app].
  assert (Hr1 : ravel [a; b] [i; j] = (i * b + j)%N) by (unfold ravel; simpl; lia).
  assert (Hr2 : ravel [b; a] [j; i] = (j * a + i)%N) by (unfold ravel; simpl; lia).
  rewrite Hr1, Hr2, Hsz. split; [exact Hx|].
  rewrite omap_total_lookup.
  - rewrite lookup_seq_lt by nia. cbn [mbind option_bind plus].
    rewrite N2Nat.id, transposed_source_2d_at by done. exact Hx.
  - intros k Hk. apply elem_of_seq in Hk. apply lookup_lt_is_Some_2.
    pose proof (transposed_source_2d_bound a b (N.of_nat k)). lia.
Qed.

End Transposition.

(** ** Assignment *)

Section Assignment.
Context {A : Type}.
Implicit Types (a array raw pointer : ndarray A) (st : state A)
  (tree : gmap string (ndarray A)).

Lemma omap_total_length {B} (f : nat -> option B) (l : list nat) :
  (forall x, x ∈ l -> is_Some (f x)) -> length (omap f l) = length l.
Proof.
  induction l as [|x l IH]; intros Hall; [done|].
  destruct (Hall x) as [y Hy]; [by left|].
  cbn [omap list_omap]. rewrite Hy. cbn [length]. f_equal.
  apply IH. intros z Hz. apply Hall. by right.
Qed.

Lemma np_transpose_well_formed_2d array (a b : N) :
  shape array = [a; b] -> well_formed array -> well_formed (np_transpose array).
Proof.
  unfold well_formed, np_transpose. intros Hsh Hwf. rewrite Hsh in *.
  cbn [shape data rev app].
  assert (Hsz : size_of [a; b] = (a * b)%N) by (simpl; lia).
  assert (Hsz' : size_of [b; a] = (a * b)%N) by (simpl; lia).
  rewrite Hsz in *. rewrite Hsz'.
  rewrite omap_total_length; [by rewrite length_seq|].
  intros k Hk. apply elem_of_seq in Hk. apply lookup_lt_is_Some_2.
  pose proof (transposed_source_2d_bound a b (N.of_nat k)). lia.
Qed.

Lemma body_assign_inv name array st st' v_name tr :
  resolve name = Ok (Assign v_name tr) ->
  body name array st = Ok st' ->
  exists pointer, params st !! v_name = Some pointer /\
    shape pointer = shape (apply_transform tr array) /\
    st' = {| params := <[v_name := apply_transform tr array]> (params st);
             idx := S (idx st) |}.
Proof.
  intros Hr. unfold body, assign, _name_to_variable. rewrite Hr.
  destruct (params st !! v_name) as [pointer|]; [|done].
  case_decide; [|done]. intros [= <-]. by exists pointer.
Qed.


Lemma init_from_checkpoint_snoc ckpt_before name raw ckpt_after tree st :
  _init_from_checkpoint ckpt_before tree = (st, None) ->
  _init_from_checkpoint (ckpt_before ++ (name, raw) :: ckpt_after)%list tree
  = match body name (squeeze raw) st with
    | Ok st' => loop (map (fun na => (fst na, squeeze (snd na))) ckpt_after) st'
    | Raise e => (st, Some e)
    end.
Proof.
  rewrite !init_from_checkpoint_unfold. intros H.
  rewrite map_app. by rewrite (loop_app _ _ _ _ H).
Qed.

End Assignment.

(** C5. When an iteration assigns through a Transpose mapping and the
    array it holds is a well-formed matrix of shape (a, b), the parameter
    at the target path is afterwards a well-formed matrix of shape (b, a)
    whose element at row [j], column [i] is the element of the source at
    row [i], column [j], for every [i < a] and [j < b]. *)
Theorem transpose_assignment_elementwise {A : Type} (name v_name : string)
    (array : ndarray A) (st st' : state A) (a b : N) :
  resolve name = Ok (Assign v_name Transpose) ->
  shape array = [a; b] ->
  well_formed array ->
  body name array st = Ok st' ->
  exists target, params st' !! v_name = Some target /\
    shape target = [b; a] /\
    well_formed target /\
    forall i j, (i < a)%N -> (j < b)%N ->
      exists x, item array [i; j] = Some x /\ item target [j; i] = Some x.
Proof.
  intros Hr Hsh Hwf Hb.
  destruct (body_assign_inv _ _ _ _ _ _ Hr Hb) as (pointer & _ & _ & ->).
  exists (np_transpose array). cbn [params apply_transform].
  split; [apply lookup_insert_eq|].
  split; [cbn [np_transpose shape]; by rewrite Hsh|].
  split; [by apply (np_transpose_well_formed_2d _ a b)|].
  intros i j Hi Hj. by apply (np_transpose_item_2d _ a b).
Qed.

Lemma transpose_assignment_elementwise_witness :
  let array := {| shape := [2; 3]%N; data := [1; 2; 3; 4; 5; 6]%N |} in
  let old := {| shape := [3; 2]%N; data := [0; 0; 0; 0; 0; 0]%N |} in
  let st := {| params := {[ "pooler.0.weight" := old ]}; idx := 0 |} in
  let st' := {| params := {[ "pooler.0.weight" := np_transpose array ]}; idx := 1 |} in
  exists target, params st' !! "pooler.0.weight" = Some target /\
    shape target = [3; 2]%N /\
    well_formed target /\
    forall i j, (i < 2)%N -> (j < 3)%N ->
      exists x, item array [i; j] = Some x /\ item target [j; i] = Some x.
Proof.
  apply (transpose_assignment_elementwise "bert/pooler/dense/kernel"
           "pooler.0.weight"
           {| shape := [2; 3]%N; data := [1; 2; 3; 4; 5; 6]%N |}
           {| params := {[ "pooler.0.weight" :=
                {| shape := [3; 2]%N; data := [0; 0; 0; 0; 0; 0]%N |} ]}; idx := 0 |}).
  - reflexivity.
  - reflexivity.
  - reflexivity.
  - vm_compute. reflexivity.
Defined.




(** C10. The pass is the loop run over the checkpoint's entries with every
    array squeezed beforehand: resolution, the shape check and the
    assignment only ever see the squeezed array. For an entry that
    resolves to an existing target, the shape check compares the
    parameter's shape with the stored shape without its axes of length
    one (reversed for a Transpose mapping): when they agree the squeezed
    (and possibly transposed) array is stored, and when they differ the
    pass fails, even if the shape stored in the checkpoint is the
    parameter's own. *)
Theorem squeeze_before_validation {A : Type}
    (ckpt_before ckpt_after : list (string * ndarray A))
    (name v_name : string) (tr : transform) (raw pointer : ndarray A)
    (tree : gmap string (ndarray A)) (st : state A) :
  _init_from_checkpoint ckpt_before tree = (st, None) ->
  resolve name = Ok (Assign v_name tr) ->
  params st !! v_name = Some pointer ->
  let squeezed := filter (fun d => d <> 1%N) (shape raw) in
  let compared := match tr with Identity => squeezed | Transpose => rev squeezed end in
  (forall ckpt : list (string * ndarray A),
     _init_from_checkpoint ckpt tree
     = loop (map (fun na => (fst na, squeeze (snd na))) ckpt)
            {| params := tree; idx := 0 |}) /\
  shape (squeeze raw) = squeezed /\
  data (squeeze raw) = data raw /\
  (shape pointer = compared ->
   _init_from_checkpoint (ckpt_before ++ [(name, raw)])%list tree
   = ({| params := <[v_name := apply_transform tr (squeeze raw)]> (params st);
         idx := S (idx st) |}, None)) /\
  (shape pointer <> compared ->
   _init_from_checkpoint (ckpt_before ++ (name, raw) :: ckpt_after)%list tree
   = (st, Some AssertionError)).
Proof.
  intros Hbefore Hr Hp squeezed compared.
  assert (Hcmp : shape (apply_transform tr (squeeze raw)) = compared)
    by (by destruct tr).
  split; [intros ckpt; apply init_from_checkpoint_unfold|].
  split; [done|]. split; [done|]. split; intros Hsh.
  - rewrite (init_from_checkpoint_snoc _ _ _ _ _ _ Hbefore).
    rewrite (body_assign _ _ _ _ _ _ Hr Hp); [done | congruence].
  - rewrite (init_from_checkpoint_snoc _ _ _ _ _ _ Hbefore).
    rewrite (body_mismatch _ _ _ _ _ _ Hr Hp); [done | congruence].
Qed.

(** A bias stored with shape (1, 3): it is accepted by a parameter of
    shape (3) and refused by a parameter of shape (1, 3). *)
Lemma squeeze_before_validation_witness :
  let raw := {| shape := [1; 3]%N; data := [4; 5; 6]%N |} in
  let pointer := {| shape := [1; 3]%N; data := [0; 0; 0]%N |} in
  let tree : gmap string (ndarray N) := {[ "pooler.0.bias" := pointer ]} in
  let st := {| params := tree; idx := 0 |} in
  (forall ckpt : list (string * ndarray N),
     _init_from_checkpoint ckpt tree
     = loop (map (fun na => (fst na, squeeze (snd na))) ckpt) st) /\
  shape (squeeze raw) = [3%N] /\
  data (squeeze raw) = [4; 5; 6]%N /\
  (shape pointer = [3%N] ->
   _init_from_checkpoint ([] ++ [("bert/pooler/dense/bias", raw)])%list tree
   = ({| params := <["pooler.0.bias" := squeeze raw]> tree; idx := 1 |}, None)) /\
  (shape pointer <> [3%N] ->
   _init_from_checkpoint ([] ++ ("bert/pooler/dense/bias", raw) :: [])%list tree
   = (st, Some AssertionError)).
Proof.
  exact (squeeze_before_validation [] [] "bert/pooler/dense/bias"
           "pooler.0.bias" Identity
           {| shape := [1; 3]%N; data := [4; 5; 6]%N |}
           {| shape := [1; 3]%N; data := [0; 0; 0]%N |}
           {[ "pooler.0.bias" := {| shape := [1; 3]%N; data := [0; 0; 0]%N |} ]}
           {| params := {[ "pooler.0.bias" :=
                {| shape := [1; 3]%N; data := [0; 0; 0]%N |} ]}; idx := 0 |}
           eq_refl eq_refl eq_refl).
Defined.

(** ** The end-to-end scenario *)

Section Scenario.
Context {A : Type}.


End Scenario.




(** ** Names that no rule matches *)

(** C7 (the code departs from the claim). The name [output_bias], which a
    fine-tuned classifier checkpoint holds, passes the skip filter and is
    in no table. It has a single field, so [name_tmp[2]] fails before the
    tables of the layer branch are consulted: the pass ends with an
    [IndexError], not with the [NameError] that reports the name. *)
Theorem one_field_name_raises_index_error :
  let name := "output_bias" in
  skipped name = false /\
  Py.dict_get global_tensor_map name = None /\
  Py.dict_get pooler_map name = None /\
  Py.dict_get layer_tables (Py.join "/" (drop 3 (Py.split "/" name))) = None /\
  Py.split "/" name = ["output_bias"] /\
  resolve name = Raise IndexError /\
  forall (array : ndarray N) (st : state N) (rest : list (string * ndarray N)),
    loop ((name, array) :: rest) st = (st, Some IndexError).
Proof. repeat split. Qed.

(** C8 (counterexample). The third field [layer_x] carries no number, yet
    the name resolves: the text [x] goes into the target path as it is. If
    the pass then fails, it is because the tree has no such path. *)
Lemma nonnumeric_layer_index_resolves :
  let name := "bert/encoder/layer_x/output/dense/bias" in
  skipped name = false /\
  Py.split "/" name !! 2%nat = Some "layer_x" /\
  Py.isdigit (Py.slice_from 6 "layer_x") = false /\
  resolve name
  = Ok (Assign "encoder.poswise_networks.x._layers.2.bias" Identity) /\
  resolve name <> Raise (NameError (not_found_msg name)) /\
  _init_from_checkpoint [(name, {| shape := [2%N]; data := [1; 2]%N |})] ∅
  = ({| params := ∅; idx := 0 |},
     Some (LookupFailed "encoder.poswise_networks.x._layers.2.bias")).
Proof. repeat split. discriminate. Qed.

(** C8 (amended). On a name with at least three fields the resolver never
    fails otherwise than with the [NameError] that reports the name. For
    such a name that is not skipped and is in neither the Global nor the
    Pooler table, this error is raised exactly when the joined suffix is
    in neither layer table; when the suffix is in one, the name resolves
    whatever the third field holds: the text after its first six
    characters is substituted into the template without being read as a
    number. *)
Theorem resolve_with_three_fields (name s0 s1 seg : string) (rest : list string) :
  Py.split "/" name = s0 :: s1 :: seg :: rest ->
  (forall e, resolve name = Raise e ->
     e = NameError ("Variable with name '" +:+ name +:+ "' not found")) /\
  (skipped name = false ->
   Py.dict_get global_tensor_map name = None ->
   Py.dict_get pooler_map name = None ->
   (Py.dict_get layer_tables (Py.join "/" rest) = None ->
    resolve name
    = Raise (NameError ("Variable with name '" +:+ name +:+ "' not found"))) /\
   (forall tmpl, Py.dict_get layer_tables (Py.join "/" rest) = Some tmpl ->
      exists tr,
        resolve name
        = Ok (Assign ("encoder." +:+ Py.format tmpl (Py.slice_from 6 seg)) tr))).
Proof.
  intros Hsplit. pose proof (resolve_layer_unfold _ _ _ _ _ Hsplit) as Hl.
  split.
  - intros e. unfold resolve.
    destruct (skipped name); [done|].
    destruct (Py.dict_get global_tensor_map name); [done|].
    destruct (Py.dict_get pooler_map name);
      [by destruct (Py.endswith name "bias")|].
    rewrite Hl.
    destruct (Py.dict_get layer_tensor_map (Py.join "/" rest)); [done|].
    destruct (Py.dict_get layer_transpose_map (Py.join "/" rest)); [done|].
    by intros [= <-].
  - intros Hs Hg Hp. rewrite (resolve_unmatched _ Hs Hg Hp), Hl.
    rewrite layer_tables_get. split.
    + destruct (Py.dict_get layer_tensor_map (Py.join "/" rest)); [done|].
      by intros ->.
    + intros tmpl.
      destruct (Py.dict_get layer_tensor_map (Py.join "/" rest)).
      * intros [= ->]. by exists Identity.
      * intros ->. by exists Transpose.
Qed.

Lemma resolve_with_three_fields_witness :
  let name := "bert/encoder/layer_x/output/dense/bias" in
  (forall e, resolve name = Raise e ->
     e = NameError ("Variable with name '" +:+ name +:+ "' not found")) /\
  (skipped name = false ->
   Py.dict_get global_tensor_map name = None ->
   Py.dict_get pooler_map name = None ->
   (Py.dict_get layer_tables (Py.join "/" ["output"; "dense"; "bias"]) = None ->
    resolve name
    = Raise (NameError ("Variable with name '" +:+ name +:+ "' not found"))) /\
   (forall tmpl,
      Py.dict_get layer_tables (Py.join "/" ["output"; "dense"; "bias"]) = Some tmpl ->
      exists tr,
        resolve name
        = Ok (Assign ("encoder." +:+ Py.format tmpl (Py.slice_from 6 "layer_x")) tr))).
Proof.
  apply (resolve_with_three_fields "bert/encoder/layer_x/output/dense/bias"
           "bert" "encoder" "layer_x" ["output"; "dense"; "bias"]).
  reflexivity.
Defined.

(** ** Injectivity of the resolution *)

Lemma chars_app a b : chars (a +:+ b) = (chars a ++ chars b)%list.
Proof. induction a as [|c a IH]; simpl; [done | by rewrite IH]. Qed.

Lemma chars_inj a b : chars a = chars b -> a = b.
Proof.
  intros H. rewrite <- (string_of_list_ascii_of_string a),
    <- (string_of_list_ascii_of_string b). unfold chars in H. by rewrite H.
Qed.

Lemma append_inv_head p x y : p +:+ x = p +:+ y -> x = y.
Proof. induction p as [|c p IH]; simpl; [done | intros [= H]; auto]. Qed.

Lemma append_inv_tail p x y : x +:+ p = y +:+ p -> x = y.
Proof.
  intros H. apply chars_inj. apply (f_equal chars) in H.
  rewrite !chars_app in H. by apply app_inv_tail in H.
Qed.

Lemma diverge_app_ne (p1 p2 x y : list ascii) :
  diverge p1 p2 = true -> (p1 ++ x)%list <> (p2 ++ y)%list.
Proof.
  revert p2. induction p1 as [|a p1 IH]; intros [|b p2]; simpl; try done.
  intros Hd [= -> H]. rewrite Ascii.eqb_refl in Hd. simpl in Hd. by eapply IH.
Qed.

Lemma diverge_append_ne pre1 pre2 x y :
  diverge (chars pre1) (chars pre2) = true -> pre1 +:+ x <> pre2 +:+ y.
Proof.
  intros Hd H. apply (f_equal chars) in H. rewrite !chars_app in H.
  by eapply diverge_app_ne.
Qed.

Lemma diverge_append_rev_ne post1 post2 x y :
  diverge (rev (chars post1)) (rev (chars post2)) = true ->
  x +:+ post1 <> y +:+ post2.
Proof.
  intros Hd H. apply (f_equal chars) in H. rewrite !chars_app in H.
  apply (f_equal (@rev ascii)) in H. rewrite !rev_app_distr in H.
  by eapply diverge_app_ne.
Qed.

Lemma never_collide_sound k1 t1 k2 t2 pre1 post1 pre2 post2 l1 l2 :
  never_collide (k1, t1) (k2, t2) = true ->
  Py.template_parts t1 = Some (pre1, post1) ->
  Py.template_parts t2 = Some (pre2, post2) ->
  pre1 +:+ l1 +:+ post1 = pre2 +:+ l2 +:+ post2 ->
  k1 = k2 /\ l1 = l2.
Proof.
  unfold never_collide. cbn [fst snd]. intros Hc Hp1 Hp2 Heq.
  rewrite Hp1, Hp2 in Hc.
  apply orb_true_iff in Hc as [Hc|Hc]; [apply orb_true_iff in Hc as [Hc|Hc]|].
  - apply andb_true_iff in Hc as [Hc Hpost]. apply andb_true_iff in Hc as [Hk Hpre].
    apply String.eqb_eq in Hk, Hpre, Hpost. subst.
    apply append_inv_head, append_inv_tail in Heq. done.
  - exfalso. by eapply diverge_append_ne.
  - apply andb_true_iff in Hc as [Hpre Hd]. apply String.eqb_eq in Hpre. subst.
    apply append_inv_head in Heq. exfalso. by eapply diverge_append_rev_ne.
Qed.

Lemma layer_tables_never_collide :
  forallb (fun e1 => forallb (never_collide e1) layer_tables) layer_tables = true.
Proof. vm_compute. reflexivity. Qed.

Lemma layer_template_parts k tmpl :
  In (k, tmpl) layer_tables ->
  exists pre post, Py.template_parts tmpl = Some (pre, post) /\
    forall arg, Py.format tmpl arg = pre +:+ arg +:+ post.
Proof.
  intros H. table_cases H;
    match goal with |- exists _ _, Py.template_parts ?t = _ /\ _ => split_template t end;
    by split.
Qed.

(** No two entries of the layer tables, filled with whatever texts, give
    the same path, unless they are the same entry filled with the same
    text. *)
Lemma layer_format_injective k1 t1 k2 t2 l1 l2 :
  In (k1, t1) layer_tables -> In (k2, t2) layer_tables ->
  Py.format t1 l1 = Py.format t2 l2 -> k1 = k2 /\ l1 = l2.
Proof.
  intros H1 H2 Heq.
  destruct (layer_template_parts _ _ H1) as (pre1 & post1 & Hp1 & Hf1).
  destruct (layer_template_parts _ _ H2) as (pre2 & post2 & Hp2 & Hf2).
  rewrite Hf1, Hf2 in Heq.
  pose proof layer_tables_never_collide as Hall.
  rewrite forallb_forall in Hall. specialize (Hall _ H1).
  rewrite forallb_forall in Hall. specialize (Hall _ H2).
  by eapply never_collide_sound.
Qed.

Lemma table_targets_injective n1 n2 p :
  In (n1, p) (global_tensor_map ++ pooler_map)%list ->
  In (n2, p) (global_tensor_map ++ pooler_map)%list -> n1 = n2.
Proof.
  intros H1 H2. table_cases H1;
    cbv [global_tensor_map pooler_map app] in H2; cbn [In] in H2;
    repeat (destruct H2 as [H2|H2];
            [first [discriminate H2 | injection H2 as <-; reflexivity]|]);
    destruct H2.
Qed.

Lemma table_target_not_layer n p k t l :
  In (n, p) (global_tensor_map ++ pooler_map)%list ->
  In (k, t) layer_tables ->
  p <> py_prefix +:+ Py.format t l.
Proof.
  intros H1 H2 Hp. table_cases H1; table_cases H2; vm_compute in Hp; discriminate Hp.
Qed.

Lemma resolve_assign_inv name p tr :
  resolve name = Ok (Assign p tr) ->
  In (name, p) (global_tensor_map ++ pooler_map)%list \/
  (Py.dict_get global_tensor_map name = None /\
   Py.dict_get pooler_map name = None /\
   exists s0 s1 seg rest tmpl,
     Py.split "/" name = s0 :: s1 :: seg :: rest /\
     In (Py.join "/" rest, tmpl) layer_tables /\
     p = py_prefix +:+ Py.format tmpl (Py.slice_from 6 seg)).
Proof.
  unfold resolve. destruct (skipped name); [done|].
  destruct (Py.dict_get global_tensor_map name) as [v|] eqn:Hg.
  { intros [= <- _]. left. apply in_or_app. left. by apply dict_get_In. }
  destruct (Py.dict_get pooler_map name) as [v|] eqn:Hp.
  { intros H. left. apply in_or_app. right. apply dict_get_In.
    by destruct (Py.endswith name "bias"); injection H as <- _. }
  intros H. right. split; [done|]. split; [done|].
  destruct (Py.split "/" name) as [|s0 [|s1 [|seg rest]]] eqn:Hs;
    [unfold resolve_layer in H; rewrite Hs in H; done ..|].
  rewrite (resolve_layer_unfold _ _ _ _ _ Hs) in H.
  exists s0, s1, seg, rest. unfold layer_tables.
  destruct (Py.dict_get layer_tensor_map (Py.join "/" rest)) as [t|] eqn:Ht.
  { injection H as <- _. exists t. repeat split.
    apply in_or_app. left. by apply dict_get_In. }
  destruct (Py.dict_get layer_transpose_map (Py.join "/" rest)) as [t|] eqn:Ht'; [|done].
  injection H as <- _. exists t. repeat split.
  apply in_or_app. right. by apply dict_get_In.
Qed.

Lemma split_nonempty sep s : Py.split sep s <> [].
Proof.
  destruct s as [|c s]; simpl; [done|].
  destruct (Ascii.eqb c sep); [done|]. by destruct (Py.split sep s).
Qed.

Lemma join_split sep s : Py.join (String sep "") (Py.split sep s) = s.
Proof.
  unfold Py.join. induction s as [|c s IH]; [done|]. cbn [Py.split].
  pose proof (split_nonempty sep s) as Hne.
  destruct (Ascii.eqb_spec c sep) as [->|_].
  - destruct (Py.split sep s) as [|h t]; [done|].
    rewrite <- IH. reflexivity.
  - destruct (Py.split sep s) as [|h t]; [done|].
    destruct t as [|h' t]; rewrite <- IH; reflexivity.
Qed.

Lemma split_cons_sep sep s l :
  Py.split sep s = l -> Py.split sep (String sep s) = "" :: l.
Proof. intros <-. cbn [Py.split]. by rewrite Ascii.eqb_refl. Qed.

Lemma split_cons_other sep c s h t :
  Ascii.eqb c sep = false -> Py.split sep s = h :: t ->
  Py.split sep (String c s) = String c h :: t.
Proof. intros Hc Hs. cbn [Py.split]. by rewrite Hc, Hs. Qed.

Lemma split_layer_name r :
  exists h t, Py.split "/" r = h :: t /\
    Py.split "/" ("bert/encoder/layer_" +:+ r)
    = "bert" :: "encoder" :: ("layer_" +:+ h) :: t.
Proof.
  pose proof (split_nonempty "/" r) as Hne.
  destruct (Py.split "/" r) as [|h t] eqn:Hs; [done|].
  exists h, t. split; [done|]. cbn [String.append].
  repeat first [ apply split_cons_sep
               | apply split_cons_other; [reflexivity|] ].
  exact Hs.
Qed.

Lemma join_cons_nonempty h t :
  t <> [] -> Py.join "/" (h :: t) = h +:+ "/" +:+ Py.join "/" t.
Proof. by destruct t. Qed.

Lemma layer_key_nonempty rest :
  In (Py.join "/" rest) (Py.dict_keys layer_tables) -> rest <> [].
Proof.
  intros H ->. vm_compute in H.
  repeat (destruct H as [H|H]; [discriminate H|]). destruct H.
Qed.

(** C9 (counterexample). Two different names that pass the skip filter and
    resolve to the same target path: the first two fields are never looked
    at. A pass over a checkpoint that holds both assigns the parameter
    twice; the second array is the one that stays. *)
Lemma distinct_names_same_target :
  let n1 := "bert/encoder/layer_0/output/dense/bias" in
  let n2 := "bert/decoder/layer_0/output/dense/bias" in
  let target := "encoder.poswise_networks.0._layers.2.bias" in
  let a1 := {| shape := [2%N]; data := [1; 2]%N |} in
  let a2 := {| shape := [2%N]; data := [3; 4]%N |} in
  let tree : gmap string (ndarray N) :=
    {[ target := {| shape := [2%N]; data := [0; 0]%N |} ]} in
  n1 <> n2 /\ skipped n1 = false /\ skipped n2 = false /\
  resolve n1 = Ok (Assign target Identity) /\
  resolve n2 = Ok (Assign target Identity) /\
  _init_from_checkpoint [(n1, a1); (n2, a2)] tree
  = ({| params := {[ target := a2 ]}; idx := 2 |}, None).
Proof. repeat split. discriminate. Qed.

Lemma resolve_same_target (n1 n2 p : string) (tr1 tr2 : transform) :
  resolve n1 = Ok (Assign p tr1) ->
  resolve n2 = Ok (Assign p tr2) ->
  (n1 = n2 \/ same_layer_slot n1 n2) /\
  (expected_name n1 -> expected_name n2 -> n1 = n2).
Proof.
  intros H1 H2.
  assert (Hmain : n1 = n2 \/ same_layer_slot n1 n2).
  { apply resolve_assign_inv in H1, H2.
    destruct H1 as [H1|(Hg1 & Hp1 & a0 & a1 & seg1 & rest1 & t1 & Hs1 & Hin1 & Hq1)];
    destruct H2 as [H2|(Hg2 & Hp2 & b0 & b1 & seg2 & rest2 & t2 & Hs2 & Hin2 & Hq2)].
    - left. by eapply table_targets_injective.
    - exfalso. by eapply table_target_not_layer.
    - exfalso. by eapply table_target_not_layer.
    - right. rewrite Hq1 in Hq2. apply append_inv_head in Hq2.
      destruct (layer_format_injective _ _ _ _ _ _ Hin1 Hin2 Hq2) as [Hk Hl].
      exists a0, a1, seg1, rest1, b0, b1, seg2, rest2. repeat split; try done.
      unfold Py.dict_keys. change (Py.join "/" rest1) with (fst (Py.join "/" rest1, t1)).
      by apply in_map. }
  split; [exact Hmain|]. intros E1 E2.
  destruct Hmain as [|Hslot]; [done|].
  destruct Hslot as (a0 & a1 & seg1 & rest1 & b0 & b1 & seg2 & rest2 &
                     Hg1 & Hp1 & Hg2 & Hp2 & Hs1 & Hs2 & Hl & Hj & Hkey).
  assert (Hno : forall n, Py.dict_get global_tensor_map n = None ->
                  Py.dict_get pooler_map n = None ->
                  ~ In n (Py.dict_keys (global_tensor_map ++ pooler_map)%list)).
  { intros n Hg Hp. unfold Py.dict_keys. rewrite map_app. intros Hin.
    apply in_app_or in Hin as [Hin|Hin];
      [by apply dict_get_None in Hg | by apply dict_get_None in Hp]. }
  destruct E1 as [E1|[r1 ->]]; [by apply Hno in E1|].
  destruct E2 as [E2|[r2 ->]]; [by apply Hno in E2|].
  destruct (split_layer_name r1) as (h1 & t1 & Hr1 & Hn1).
  destruct (split_layer_name r2) as (h2 & t2 & Hr2 & Hn2).
  rewrite Hn1 in Hs1. rewrite Hn2 in Hs2.
  injection Hs1 as <- <- <- <-. injection Hs2 as <- <- <- <-.
  assert (S1 : Py.slice_from 6 ("layer_" +:+ h1) = h1)
    by apply (slice_from_app "layer_").
  assert (S2 : Py.slice_from 6 ("layer_" +:+ h2) = h2)
    by apply (slice_from_app "layer_").
  rewrite S1, S2 in Hl.
  f_equal.
  rewrite <- (join_split "/" r1), <- (join_split "/" r2), Hr1, Hr2.
  rewrite !join_cons_nonempty; [by rewrite Hl, Hj | |].
  - apply layer_key_nonempty. by rewrite <- Hj.
  - by apply layer_key_nonempty.
Qed.


Lemma target_of_Some name p :
  target_of name = Some p -> exists tr, resolve name = Ok (Assign p tr).
Proof.
  unfold target_of. destruct (resolve name) as [[|v tr]|]; try done.
  intros [= ->]. by exists tr.
Qed.

Lemma targets_NoDup (names : list string) :
  NoDup names -> Forall expected_name names -> NoDup (omap target_of names).
Proof.
  induction 1 as [|n ns Hn Hnd IH]; intros HF; [constructor|].
  apply Forall_cons in HF as [En HF]. cbn [omap list_omap].
  destruct (target_of n) as [p|] eqn:E; [|by apply IH].
  constructor; [|by apply IH].
  intros Hin. apply list_elem_of_omap in Hin as (n' & Hn' & E').
  apply target_of_Some in E as [tr1 R1]. apply target_of_Some in E' as [tr2 R2].
  assert (En' : expected_name n') by (rewrite Forall_forall in HF; by apply HF).
  destruct (resolve_same_target _ _ _ _ _ R1 R2) as [_ Hinj].
  rewrite (Hinj En En') in Hn. done.
Qed.

(** C9 (amended). Two names resolved to the same target path are the same
    name, or both take the layer branch with the same text after the first
    six characters of the third field and the same suffix: they differ
    only in their first two fields or in the first six characters of the
    third. Among the keys of the Global and Pooler tables and the names
    under [bert/encoder/layer_] the resolution is injective, so over
    distinct such names no target path is written twice. *)
Theorem resolve_injective_up_to_prefix (n1 n2 p : string) (tr1 tr2 : transform) :
  resolve n1 = Ok (Assign p tr1) ->
  resolve n2 = Ok (Assign p tr2) ->
  (n1 = n2 \/ same_layer_slot n1 n2) /\
  (expected_name n1 -> expected_name n2 -> n1 = n2) /\
  (forall names : list string,
     NoDup names -> Forall expected_name names -> NoDup (omap target_of names)).
Proof.
  intros H1 H2. destruct (resolve_same_target _ _ _ _ _ H1 H2) as [Ha Hb].
  split; [exact Ha|]. split; [exact Hb|]. apply targets_NoDup.
Qed.

Lemma resolve_injective_up_to_prefix_witness :
  let n1 := "bert/encoder/layer_0/output/dense/bias" in
  let n2 := "bert/decoder/layer_0/output/dense/bias" in
  (n1 = n2 \/ same_layer_slot n1 n2) /\
  (expected_name n1 -> expected_name n2 -> n1 = n2) /\
  (forall names : list string,
     NoDup names -> Forall expected_name names -> NoDup (omap target_of names)).
Proof.
  apply (resolve_injective_up_to_prefix
           "bert/encoder/layer_0/output/dense/bias"
           "bert/decoder/layer_0/output/dense/bias"
           "encoder.poswise_networks.0._layers.2.bias" Identity Identity);
    reflexivity.
Defined.

(** * Further properties of the pass *)

Section Pass.
Context {A : Type}.
Implicit Types (a array raw pointer : ndarray A) (st : state A)
  (tree : gmap string (ndarray A)) (items ckpt : list (string * ndarray A)).

Lemma body_rejection name a st :
  body name a st
  = match rejection (params st) (name, a) with
    | Some e => Raise e
    | None =>
        Ok match write_of (name, a) with
           | Some (v_name, arr) =>
               {| params := <[v_name := arr]> (params st); idx := S (idx st) |}
           | None => st
           end
    end.
Proof.
  unfold body, rejection, write_of, assign, _name_to_variable. cbn [fst snd].
  destruct (resolve name) as [[|v tr]|e]; try done.
  destruct (params st !! v) as [pointer|]; [|done]. by case_decide.
Qed.

Lemma body_same_shapes name a st st' :
  body name a st = Ok st' -> same_shapes (params st') (params st).
Proof.
  rewrite body_rejection. unfold rejection, write_of. cbn [fst snd].
  destruct (resolve name) as [[|v tr]|e]; try done.
  - by intros [= <-].
  - destruct (params st !! v) as [pointer|] eqn:Hp; [|done].
    case_decide as Hs; [|done]. intros [= <-] k. cbn [params].
    destruct (decide (v = k)) as [<-|Hne].
    + rewrite lookup_insert_eq, Hp. cbn. by rewrite Hs.
    + by rewrite lookup_insert_ne.
Qed.

Lemma loop_same_shapes items st :
  same_shapes (params (loop items st).1) (params st).
Proof.
  revert st. induction items as [|[n a] items IH]; intros st; cbn [loop]; [done|].
  destruct (body n a st) as [st'|e] eqn:Hb; [|done].
  intros k. rewrite IH. by apply body_same_shapes in Hb.
Qed.

Lemma rejection_same_shapes tree1 tree2 (item : string * ndarray A) :
  same_shapes tree1 tree2 -> rejection tree1 item = rejection tree2 item.
Proof.
  intros H. unfold rejection. destruct (resolve item.1) as [[|v tr]|e]; try done.
  specialize (H v).
  destruct (tree1 !! v) as [p1|], (tree2 !! v) as [p2|]; try done.
  injection H as ->. done.
Qed.

Lemma accepted_rejection tree (item : string * ndarray A) :
  accepted tree item = true <-> rejection tree item = None.
Proof.
  unfold accepted, rejection. destruct (resolve item.1) as [[|v tr]|e]; try done.
  destruct (tree !! v) as [p|]; [|done].
  rewrite bool_decide_eq_true. by case_decide.
Qed.

Lemma accepted_same_shapes tree1 tree2 items :
  same_shapes tree1 tree2 ->
  forallb (accepted tree1) items = forallb (accepted tree2) items.
Proof.
  intros H. induction items as [|item items IH]; [done|]. cbn [forallb].
  rewrite IH. f_equal. apply eq_true_iff_eq.
  by rewrite !accepted_rejection, (rejection_same_shapes _ _ _ H).
Qed.

Lemma loop_success_iff items st :
  (loop items st).2 = None <-> forallb (accepted (params st)) items = true.
Proof.
  revert st. induction items as [|[n a] items IH]; intros st; cbn [loop forallb]; [done|].
  rewrite andb_true_iff, accepted_rejection.
  destruct (body n a st) as [st1|e] eqn:Hb.
  - rewrite IH, (accepted_same_shapes _ _ _ (body_same_shapes _ _ _ _ Hb)).
    rewrite body_rejection in Hb.
    destruct (rejection (params st) (n, a)); [done|]. tauto.
  - rewrite body_rejection in Hb.
    destruct (rejection (params st) (n, a)); [|done]. cbn. split; [done | by intros [? _]].
Qed.

Lemma loop_result items st st' :
  loop items st = (st', None) ->
  idx st' = idx st + length (writes items) /\
  forall k, params st' !! k
            = match last_write (writes items) k with
              | Some arr => Some arr
              | None => params st !! k
              end.
Proof.
  revert st. induction items as [|[n a] items IH]; intros st; cbn [loop].
  - intros [= <-]. split; [cbn; lia | done].
  - rewrite body_rejection. destruct (rejection (params st) (n, a)); [done|].
    intros H. apply IH in H as [Hi Hl]. unfold writes in *. cbn [omap list_omap].
    destruct (write_of (n, a)) as [[v arr]|]; [|done].
    cbn [idx params length last_write] in *. split; [lia|].
    intros k. rewrite Hl. destruct (last_write _ k); [done|].
    destruct (decide (v = k)) as [<-|Hne];
      [by rewrite lookup_insert_eq | by rewrite lookup_insert_ne].
Qed.

Lemma loop_failure items st st' e :
  loop items st = (st', Some e) ->
  exists before item after,
    items = (before ++ item :: after)%list /\
    loop before st = (st', None) /\
    rejection (params st') item = Some e.
Proof.
  revert st. induction items as [|[n a] items IH]; intros st; cbn [loop]; [done|].
  rewrite body_rejection. destruct (rejection (params st) (n, a)) as [e'|] eqn:Hr.
  - intros [= <- <-]. by exists [], (n, a), items.
  - intros H. apply IH in H as (before & item & after & -> & Hb & He).
    exists ((n, a) :: before), item, after. split; [done|]. split; [|done].
    cbn [loop]. by rewrite body_rejection, Hr.
Qed.

End Pass.

Section PassTheorems.
Context {A : Type}.
Implicit Types (st : state A) (tree : gmap string (ndarray A))
  (ckpt : list (string * ndarray A)).

Lemma init_is_loop ckpt tree :
  _init_from_checkpoint ckpt tree = loop (loaded ckpt) {| params := tree; idx := 0 |}.
Proof. apply init_from_checkpoint_unfold. Qed.

Lemma same_shapes_dom tree1 tree2 :
  same_shapes tree1 tree2 -> dom tree1 = dom tree2.
Proof.
  intros H. apply set_eq. intros k. rewrite !elem_of_dom.
  rewrite <- !(fmap_is_Some shape). by rewrite H.
Qed.

Lemma loaded_app_inv ckpt before item after :
  loaded ckpt = (before ++ item :: after)%list ->
  exists b name raw a,
    ckpt = (b ++ (name, raw) :: a)%list /\ loaded b = before /\
    item = (name, squeeze raw) /\ loaded a = after.
Proof.
  revert before. induction ckpt as [|[n r] ckpt IH]; intros before H.
  - by destruct before.
  - destruct before as [|x before]; cbn in H.
    + injection H as <- <-. by exists [], n, r, ckpt.
    + injection H as <- H. apply IH in H as (b & name & raw & a & -> & <- & -> & <-).
      by exists ((n, r) :: b), name, raw, a.
Qed.

Lemma pass_keeps_paths_and_shapes_aux ckpt tree :
  forall k, shape <$> params (_init_from_checkpoint ckpt tree).1 !! k
            = shape <$> tree !! k.
Proof.
  rewrite init_is_loop.
  exact (loop_same_shapes (loaded ckpt) {| params := tree; idx := 0 |}).
Qed.

Lemma pass_succeeds_aux ckpt tree :
  (_init_from_checkpoint ckpt tree).2 = None ->
  forallb (accepted tree) (loaded ckpt) = true.
Proof. rewrite init_is_loop. apply loop_success_iff. Qed.

End PassTheorems.

(** X1. Whether it succeeds or fails, a pass leaves the parameter tree with
    the paths it had and every parameter with the shape it had: it creates
    no parameter, removes none and reshapes none. *)
Theorem pass_keeps_paths_and_shapes {A : Type}
    (ckpt : list (string * ndarray A)) (tree : gmap string (ndarray A)) :
  dom (params (_init_from_checkpoint ckpt tree).1) = dom tree /\
  forall k, shape <$> params (_init_from_checkpoint ckpt tree).1 !! k
            = shape <$> tree !! k.
Proof.
  rewrite init_is_loop.
  pose proof (loop_same_shapes (loaded ckpt) {| params := tree; idx := 0 |}) as H.
  split; [by apply same_shapes_dom | exact H].
Qed.

(** X2. After a pass that raised nothing, a path that some entry of the
    checkpoint resolved to holds the (squeezed, possibly transposed) array
    of the last such entry, every other path holds what it held before,
    and the counter is the number of assignments made. *)
Theorem pass_result {A : Type}
    (ckpt : list (string * ndarray A)) (tree : gmap string (ndarray A))
    (st : state A) :
  _init_from_checkpoint ckpt tree = (st, None) ->
  idx st = length (writes (loaded ckpt)) /\
  forall k, params st !! k
            = match last_write (writes (loaded ckpt)) k with
              | Some arr => Some arr
              | None => tree !! k
              end.
Proof. rewrite init_is_loop. intros H. by apply loop_result in H. Qed.

Lemma pass_result_witness :
  let a1 := {| shape := [1; 2]%N; data := [1; 2]%N |} in
  let a2 := {| shape := [2%N]; data := [3; 4]%N |} in
  let old := {| shape := [2%N]; data := [0; 0]%N |} in
  let ckpt := [ ("bert/encoder/layer_0/output/dense/bias", a1);
                ("global_step", {| shape := []; data := [9%N] |});
                ("bert/decoder/layer_0/output/dense/bias", a2) ] in
  let tree : gmap string (ndarray N) :=
    {[ "encoder.poswise_networks.0._layers.2.bias" := old;
       "pooler.0.bias" := old ]} in
  let st := {| params := {[ "encoder.poswise_networks.0._layers.2.bias" := a2;
                            "pooler.0.bias" := old ]}; idx := 2 |} in
  idx st = length (writes (loaded ckpt)) /\
  forall k, params st !! k
            = match last_write (writes (loaded ckpt)) k with
              | Some arr => Some arr
              | None => tree !! k
              end.
Proof.
  apply (pass_result
           [ ("bert/encoder/layer_0/output/dense/bias",
              {| shape := [1; 2]%N; data := [1; 2]%N |});
             ("global_step", {| shape := []; data := [9%N] |});
             ("bert/decoder/layer_0/output/dense/bias",
              {| shape := [2%N]; data := [3; 4]%N |}) ]
           {[ "encoder.poswise_networks.0._layers.2.bias" :=
                {| shape := [2%N]; data := [0; 0]%N |};
              "pooler.0.bias" := {| shape := [2%N]; data := [0; 0]%N |} ]}).
  vm_compute. reflexivity.
Defined.

(** X3. Whether a pass raises is decided by the tree as it is before the
    pass: it raises nothing exactly when every entry, squeezed, is either
    skipped or resolves to a path of that tree whose parameter has the
    shape of the (possibly transposed) array. Earlier assignments never
    change what a later entry is checked against. *)
Theorem pass_succeeds_iff {A : Type}
    (ckpt : list (string * ndarray A)) (tree : gmap string (ndarray A)) :
  (_init_from_checkpoint ckpt tree).2 = None <->
  forallb (accepted tree) (loaded ckpt) = true.
Proof. rewrite init_is_loop. apply loop_success_iff. Qed.

(** X4. Loading is idempotent: when a pass raised nothing, a second pass
    of the same checkpoint over the tree it produced raises nothing
    either and ends in the same tree with the same counter. *)
Theorem pass_idempotent {A : Type}
    (ckpt : list (string * ndarray A)) (tree : gmap string (ndarray A))
    (st : state A) :
  _init_from_checkpoint ckpt tree = (st, None) ->
  _init_from_checkpoint ckpt (params st) = (st, None).
Proof.
  intros H.
  pose proof (pass_keeps_paths_and_shapes_aux ckpt tree) as Hs.
  rewrite H in Hs. cbn [fst] in Hs.
  pose proof (proj1 (loop_success_iff (loaded ckpt) {| params := tree; idx := 0 |})) as Hok.
  rewrite <- init_is_loop, H in Hok. specialize (Hok eq_refl). cbn [params] in Hok.
  rewrite (accepted_same_shapes _ (params st)) in Hok by (intros k; by rewrite Hs).
  apply (loop_success_iff (loaded ckpt) {| params := params st; idx := 0 |}) in Hok.
  rewrite <- init_is_loop in Hok.
  destruct (_init_from_checkpoint ckpt (params st)) as [st2 o] eqn:H2.
  cbn [snd] in Hok. subst o. f_equal.
  rewrite init_is_loop in H, H2.
  apply loop_result in H as [Hi Hl]. apply loop_result in H2 as [Hi2 Hl2].
  destruct st as [m i], st2 as [m2 i2]. cbn [params idx] in *. f_equal; [|lia].
  apply map_eq. intros k. rewrite Hl2, Hl. by destruct (last_write _ k).
Qed.

Lemma pass_idempotent_witness :
  let ckpt := [ ("bert/pooler/dense/kernel",
                 {| shape := [2; 3]%N; data := [1; 2; 3; 4; 5; 6]%N |});
                ("cls/predictions/output_bias", {| shape := [1%N]; data := [7%N] |}) ] in
  let st : state N :=
    {| params := {[ "pooler.0.weight" :=
                      {| shape := [3; 2]%N; data := [1; 4; 2; 5; 3; 6]%N |} ]};
       idx := 1 |} in
  _init_from_checkpoint ckpt (params st) = (st, None).
Proof.
  apply (pass_idempotent
           [ ("bert/pooler/dense/kernel",
              {| shape := [2; 3]%N; data := [1; 2; 3; 4; 5; 6]%N |});
             ("cls/predictions/output_bias", {| shape := [1%N]; data := [7%N] |}) ]
           {[ "pooler.0.weight" :=
                {| shape := [3; 2]%N; data := [0; 0; 0; 0; 0; 0]%N |} ]}).
  vm_compute. reflexivity.
Defined.

(** ** Which names make the resolver raise *)

Lemma split_length sep s : length (Py.split sep s) = S (count_char sep s).
Proof.
  induction s as [|c s IH]; [done|]. cbn [Py.split count_char].
  destruct (Ascii.eqb c sep); cbn [length]; [by rewrite IH|].
  destruct (Py.split sep s); [done|]. cbn [length] in *. lia.
Qed.

Lemma resolve_layer_short name :
  count_char "/" name < 2 -> resolve_layer name = Raise IndexError.
Proof.
  intros H. unfold resolve_layer. pose proof (split_length "/" name) as Hl.
  destruct (Py.split "/" name) as [|s0 [|s1 [|seg rest]]]; try done.
  cbn [length] in Hl. lia.
Qed.

Lemma resolve_layer_long name :
  2 <= count_char "/" name ->
  exists s0 s1 seg rest, Py.split "/" name = s0 :: s1 :: seg :: rest.
Proof.
  intros H. pose proof (split_length "/" name) as Hl.
  destruct (Py.split "/" name) as [|s0 [|s1 [|seg rest]]];
    cbn [length] in Hl; try lia.
  by exists s0, s1, seg, rest.
Qed.

Lemma resolve_raise_inv name e :
  resolve name = Raise e ->
  skipped name = false /\
  Py.dict_get global_tensor_map name = None /\
  Py.dict_get pooler_map name = None /\
  ((e = IndexError /\ count_char "/" name < 2) \/
   (e = NameError (not_found_msg name) /\ 2 <= count_char "/" name)).
Proof.
  unfold resolve. destruct (skipped name); [done|].
  destruct (Py.dict_get global_tensor_map name); [done|].
  destruct (Py.dict_get pooler_map name); [by destruct (Py.endswith name "bias")|].
  intros H. repeat split.
  destruct (le_lt_dec 2 (count_char "/" name)) as [Hc|Hc].
  - right. split; [|done].
    destruct (resolve_layer_long _ Hc) as (s0 & s1 & seg & rest & Hs).
    rewrite (resolve_layer_unfold _ _ _ _ _ Hs) in H.
    destruct (Py.dict_get layer_tensor_map _); [done|].
    destruct (Py.dict_get layer_transpose_map _); [done|]. by injection H as <-.
  - left. split; [|done]. rewrite (resolve_layer_short _ Hc) in H. by injection H as <-.
Qed.

(** X5. The resolver raises [IndexError] exactly on the names that pass the
    skip filter, are in neither the Global nor the Pooler table and hold
    fewer than two "/": for them [name_tmp[2]] does not exist, whatever the
    layer tables hold. *)
Theorem index_error_extent (name : string) :
  resolve name = Raise IndexError <->
  skipped name = false /\
  Py.dict_get global_tensor_map name = None /\
  Py.dict_get pooler_map name = None /\
  count_char "/" name < 2.
Proof.
  split.
  - intros H. apply resolve_raise_inv in H as (Hs & Hg & Hp & [[_ Hc]|[He _]]); done.
  - intros (Hs & Hg & Hp & Hc).
    by rewrite (resolve_unmatched _ Hs Hg Hp), resolve_layer_short.
Qed.

(** X6. A pass that raises stops at the first entry that the tree, as it
    was before the pass, does not accept, and raises what that entry
    raises against that tree. The assignments of the entries before it
    are kept: the tree is the one a pass over those entries alone
    produces, and nothing is rolled back. *)
Theorem failed_pass_keeps_earlier_writes {A : Type}
    (ckpt : list (string * ndarray A)) (tree : gmap string (ndarray A))
    (st : state A) (e : exn) :
  _init_from_checkpoint ckpt tree = (st, Some e) ->
  exists before name raw after,
    ckpt = (before ++ (name, raw) :: after)%list /\
    forallb (accepted tree) (loaded before) = true /\
    _init_from_checkpoint before tree = (st, None) /\
    rejection tree (name, squeeze raw) = Some e /\
    forall k, params st !! k
              = match last_write (writes (loaded before)) k with
                | Some arr => Some arr
                | None => tree !! k
                end.
Proof.
  rewrite init_is_loop. intros H.
  apply loop_failure in H as (b' & item & a' & Hl & Hb & He).
  apply loaded_app_inv in Hl as (before & name & raw & after & -> & <- & -> & <-).
  exists before, name, raw, after. rewrite init_is_loop.
  pose proof (loop_same_shapes (loaded before) {| params := tree; idx := 0 |}) as Hs.
  rewrite Hb in Hs. cbn [fst params] in Hs.
  split; [done|]. split.
  { apply (loop_success_iff (loaded before) {| params := tree; idx := 0 |}).
    by rewrite Hb. }
  split; [done|]. split.
  { by rewrite <- (rejection_same_shapes _ _ _ Hs). }
  by apply loop_result in Hb as [_ Hb].
Qed.

Lemma failed_pass_keeps_earlier_writes_witness :
  let bias := {| shape := [2%N]; data := [1; 2]%N |} in
  let kernel := {| shape := [2; 3]%N; data := [1; 2; 3; 4; 5; 6]%N |} in
  let old2 := {| shape := [2%N]; data := [0; 0]%N |} in
  let old23 := {| shape := [2; 3]%N; data := [0; 0; 0; 0; 0; 0]%N |} in
  let tree : gmap string (ndarray N) :=
    {[ "pooler.0.bias" := old2; "pooler.0.weight" := old23 ]} in
  let st := {| params := {[ "pooler.0.bias" := bias; "pooler.0.weight" := old23 ]};
               idx := 1 |} in
  let ckpt := [ ("bert/pooler/dense/bias", bias);
                ("bert/pooler/dense/kernel", kernel) ] in
  exists before name raw after,
    ckpt = (before ++ (name, raw) :: after)%list /\
    forallb (accepted tree) (loaded before) = true /\
    _init_from_checkpoint before tree = (st, None) /\
    rejection tree (name, squeeze raw) = Some AssertionError /\
    forall k, params st !! k
              = match last_write (writes (loaded before)) k with
                | Some arr => Some arr
                | None => tree !! k
                end.
Proof.
  apply (failed_pass_keeps_earlier_writes
           [ ("bert/pooler/dense/bias", {| shape := [2%N]; data := [1; 2]%N |});
             ("bert/pooler/dense/kernel",
              {| shape := [2; 3]%N; data := [1; 2; 3; 4; 5; 6]%N |}) ]
           {[ "pooler.0.bias" := {| shape := [2%N]; data := [0; 0]%N |};
              "pooler.0.weight" :=
                {| shape := [2; 3]%N; data := [0; 0; 0; 0; 0; 0]%N |} ]}).
  vm_compute. reflexivity.
Defined.

(** X7. Every exception of a pass is caused by one entry of the checkpoint
    whose name passes the skip filter, and is one of four: [IndexError]
    when the name is in neither the Global nor the Pooler table and holds
    fewer than two "/"; the [NameError] naming it when it holds at least
    two and its suffix is in no table; a failed lookup of the path it
    resolves to, only when the tree had no such path before the pass; a
    failed shape assertion, only when the parameter the tree had at that
    path before the pass has another shape than the squeezed (and
    possibly transposed) array. *)
Theorem pass_failure_causes {A : Type}
    (ckpt : list (string * ndarray A)) (tree : gmap string (ndarray A))
    (st : state A) (e : exn) :
  _init_from_checkpoint ckpt tree = (st, Some e) ->
  exists name raw,
    In (name, raw) ckpt /\ skipped name = false /\
    match e with
    | IndexError => resolve name = Raise IndexError /\ count_char "/" name < 2
    | NameError msg =>
        msg = "Variable with name '" +:+ name +:+ "' not found" /\
        resolve name = Raise e /\ 2 <= count_char "/" name
    | LookupFailed path =>
        (exists tr, resolve name = Ok (Assign path tr)) /\ tree !! path = None
    | AssertionError =>
        exists path tr pointer,
          resolve name = Ok (Assign path tr) /\
          tree !! path = Some pointer /\
          shape pointer <> shape (apply_transform tr (squeeze raw))
    end.
Proof.
  rewrite init_is_loop. intros H.
  pose proof (loop_same_shapes (loaded ckpt) {| params := tree; idx := 0 |}) as Hs.
  rewrite H in Hs. cbn [fst params] in Hs.
  apply loop_failure in H as (b' & item & a' & Hl & _ & He).
  apply loaded_app_inv in Hl as (before & name & raw & after & -> & _ & -> & _).
  rewrite (rejection_same_shapes _ _ _ Hs) in He.
  exists name, raw. split; [apply in_elt|].
  unfold rejection in He. cbn [fst snd] in He.
  destruct (resolve name) as [[|path tr]|e'] eqn:Hr; [done| |].
  - assert (Hsk : skipped name = false).
    { unfold resolve in Hr. by destruct (skipped name). }
    split; [done|].
    destruct (tree !! path) as [pointer|] eqn:Hp.
    + case_decide as Hsh; [done|]. injection He as <-. by exists path, tr, pointer.
    + injection He as <-. split; [by exists tr | done].
  - injection He as ->.
    destruct (resolve_raise_inv _ _ Hr) as (Hsk & _ & _ & [[-> Hc]|[-> Hc]]); by repeat split.
Qed.

Lemma pass_failure_causes_witness :
  let ckpt := [ ("global_step", {| shape := []; data := [3%N] |});
                ("bert/encoder/layer_12/output/dense/bias",
                 {| shape := [2%N]; data := [1; 2]%N |}) ] in
  let tree : gmap string (ndarray N) :=
    {[ "encoder.poswise_networks.11._layers.2.bias" :=
         {| shape := [2%N]; data := [0; 0]%N |} ]} in
  exists name raw,
    In (name, raw) ckpt /\ skipped name = false /\
    (exists tr, resolve name
                = Ok (Assign "encoder.poswise_networks.12._layers.2.bias" tr)) /\
    tree !! "encoder.poswise_networks.12._layers.2.bias" = None.
Proof.
  apply (pass_failure_causes
           [ ("global_step", {| shape := []; data := [3%N] |});
             ("bert/encoder/layer_12/output/dense/bias",
              {| shape := [2%N]; data := [1; 2]%N |}) ]
           {[ "encoder.poswise_networks.11._layers.2.bias" :=
                {| shape := [2%N]; data := [0; 0]%N |} ]}
           {| params := {[ "encoder.poswise_networks.11._layers.2.bias" :=
                             {| shape := [2%N]; data := [0; 0]%N |} ]}; idx := 0 |}
           (LookupFailed "encoder.poswise_networks.12._layers.2.bias")).
  vm_compute. reflexivity.
Defined.

(** ** Names of the layer tables are reachable *)

Lemma split_app_nosep sep i s :
  count_char sep i = 0 ->
  Py.split sep (i +:+ String sep s) = i :: Py.split sep s.
Proof.
  induction i as [|c i IH]; cbn [count_char String.append]; intros H.
  - by apply split_cons_sep.
  - destruct (Ascii.eqb c sep) eqn:Hc; [done|].
    apply split_cons_other; [done | by apply IH].
Qed.

Lemma layer_name_split i sfx :
  count_char "/" i = 0 ->
  Py.split "/" ("bert/encoder/layer_" +:+ i +:+ "/" +:+ sfx)
  = "bert" :: "encoder" :: ("layer_" +:+ i) :: Py.split "/" sfx.
Proof.
  intros H. cbn [String.append].
  repeat first [ apply split_cons_sep
               | apply split_cons_other; [reflexivity|] ].
  by apply split_app_nosep.
Qed.

Lemma endswith_false s post suf :
  diverge (rev (chars suf)) (rev (chars post)) = true ->
  Py.endswith (s +:+ post) suf = false.
Proof.
  intros Hd. destruct (Py.endswith (s +:+ post) suf) eqn:He; [|done].
  apply endswith_inv in He as [p Hp]. symmetry in Hp.
  by apply diverge_append_rev_ne in Hp.
Qed.

Lemma layer_keys_not_optimizer_state :
  forallb (fun kv => diverge (rev (chars "adam_m")) (rev (chars (fst kv))) &&
                     diverge (rev (chars "adam_v")) (rev (chars (fst kv))))
          layer_tables = true.
Proof. vm_compute. reflexivity. Qed.

Lemma string_app_assoc a b c : (a +:+ b) +:+ c = a +:+ b +:+ c.
Proof.
  induction a as [|x a IH]; [done|].
  change (String x ((a +:+ b) +:+ c) = String x (a +:+ b +:+ c)). by rewrite IH.
Qed.

Lemma layer_name_not_skipped i sfx tmpl :
  In (sfx, tmpl) layer_tables ->
  skipped ("bert/encoder/layer_" +:+ i +:+ "/" +:+ sfx) = false.
Proof.
  intros Hin. pose proof layer_keys_not_optimizer_state as H.
  rewrite forallb_forall in H. apply H in Hin. cbn [fst] in Hin.
  apply andb_true_iff in Hin as [Hm Hv].
  unfold skipped.
  assert (Hq : "bert/encoder/layer_" +:+ i +:+ "/" +:+ sfx
               = ("bert/encoder/layer_" +:+ i +:+ "/") +:+ sfx).
  { by rewrite !string_app_assoc. }
  assert (Em : Py.endswith ("bert/encoder/layer_" +:+ i +:+ "/" +:+ sfx) "adam_m" = false)
    by (rewrite Hq; by apply endswith_false).
  assert (Ev : Py.endswith ("bert/encoder/layer_" +:+ i +:+ "/" +:+ sfx) "adam_v" = false)
    by (rewrite Hq; by apply endswith_false).
  rewrite Em, Ev. reflexivity.
Qed.

(** X8. Every entry of the two layer tables is reachable for every layer:
    for a layer text [i] without "/" (a number, in a checkpoint) and a
    suffix of the tables, the name [bert/encoder/layer_i/suffix] is not
    skipped and resolves to [encoder.] followed by the entry's template
    with [i] in place of its field: untransposed for [layer_tensor_map],
    transposed for [layer_transpose_map]. *)
Theorem layer_names_resolve (i sfx tmpl : string) :
  count_char "/" i = 0 ->
  In (sfx, tmpl) layer_tables ->
  exists pre post tr,
    tmpl = pre +:+ "{}" +:+ post /\
    resolve ("bert/encoder/layer_" +:+ i +:+ "/" +:+ sfx)
    = Ok (Assign ("encoder." +:+ pre +:+ i +:+ post) tr) /\
    (In (sfx, tmpl) layer_tensor_map -> tr = Identity) /\
    (In (sfx, tmpl) layer_transpose_map -> tr = Transpose).
Proof.
  intros Hi Hin.
  destruct (layer_template_format _ _ Hin) as (pre & post & Htmpl & _ & Hfmt).
  exists pre, post.
  rewrite (resolve_unmatched _ (layer_name_not_skipped i _ _ Hin) eq_refl eq_refl).
  rewrite (resolve_layer_unfold _ _ _ _ _ (layer_name_split i sfx Hi)).
  rewrite (join_split "/" sfx).
  assert (Hs : Py.slice_from 6 ("layer_" +:+ i) = i) by apply (slice_from_app "layer_").
  rewrite Hs.
  assert (Hget : Py.dict_get layer_tables sfx = Some tmpl)
    by (apply dict_get_NoDup; [apply layer_keys_NoDup | exact Hin]).
  rewrite layer_tables_get in Hget.
  destruct (Py.dict_get layer_tensor_map sfx) as [t|] eqn:Hplain.
  - injection Hget as ->. exists Identity. rewrite Hfmt. repeat split; try done.
    intros Ht. exfalso. eapply layer_tables_disjoint; [|exact Ht]. by apply dict_get_In.
  - rewrite Hget. exists Transpose. rewrite Hfmt. repeat split; try done.
    intros Ht. apply dict_get_None in Hplain. exfalso. apply Hplain.
    unfold Py.dict_keys. change sfx with (fst (sfx, tmpl)). by apply in_map.
Qed.

Lemma layer_names_resolve_witness :
  exists pre post tr,
    "poswise_networks.{}._layers.0.weight" = pre +:+ "{}" +:+ post /\
    resolve ("bert/encoder/layer_" +:+ "23" +:+ "/" +:+ "intermediate/dense/kernel")
    = Ok (Assign ("encoder." +:+ pre +:+ "23" +:+ post) tr) /\
    (In ("intermediate/dense/kernel", "poswise_networks.{}._layers.0.weight")
        layer_tensor_map -> tr = Identity) /\
    (In ("intermediate/dense/kernel", "poswise_networks.{}._layers.0.weight")
        layer_transpose_map -> tr = Transpose).
Proof.
  apply (layer_names_resolve "23" "intermediate/dense/kernel"
           "poswise_networks.{}._layers.0.weight").
  - reflexivity.
  - unfold layer_tables. simpl. do 14 right. left. reflexivity.
Defined.

(** ** Arrays of any rank *)

Lemma size_of_app (d1 d2 : list N) :
  @size_of (d1 ++ d2)%list = (size_of d1 * size_of d2)%N.
Proof.
  unfold size_of. induction d1 as [|d d1 IH]; cbn [fold_right app]; [lia|].
  rewrite IH. lia.
Qed.

Lemma size_of_rev (dims : list N) : size_of (rev dims) = size_of dims.
Proof.
  induction dims as [|d dims IH]; [done|]. cbn [rev].
  rewrite size_of_app, IH. unfold size_of. cbn [fold_right]. lia.
Qed.

Lemma size_of_squeezed (dims : list N) :
  size_of (filter (fun d => d <> 1%N) dims) = size_of dims.
Proof.
  induction dims as [|d dims IH]; [done|].
  destruct (decide (d = 1%N)) as [->|Hd].
  - rewrite filter_cons_False by (intros H; by apply H).
    rewrite IH. unfold size_of. cbn [fold_right]. lia.
  - rewrite filter_cons_True by done. unfold size_of in *. cbn [fold_right].
    by rewrite IH.
Qed.

Lemma size_of_pos_dims (dims : list N) :
  (0 < size_of dims)%N -> Forall (fun d => (0 < d)%N) dims.
Proof.
  unfold size_of. induction dims as [|d dims IH]; cbn [fold_right]; intros H;
    constructor; [nia | apply IH; nia].
Qed.

Lemma ravel_from_bound (acc : N) (dims idx : list N) :
  in_bounds idx dims ->
  (ravel_from acc dims idx < (acc + 1) * size_of dims)%N.
Proof.
  intros H. revert acc. induction H as [|i d idx dims Hi _ IH]; intros acc.
  - unfold size_of. cbn. lia.
  - cbn [ravel_from]. specialize (IH (acc * d + i)%N).
    unfold size_of in *. cbn [fold_right]. nia.
Qed.

Lemma ravel_from_app (acc : N) (d1 d2 i1 i2 : list N) :
  length d1 = length i1 ->
  ravel_from acc (d1 ++ d2)%list (i1 ++ i2)%list
  = ravel_from (ravel_from acc d1 i1) d2 i2.
Proof.
  revert acc i1. induction d1 as [|d d1 IH]; intros acc [|i i1] Hl; try done.
  cbn [app ravel_from]. apply IH. by injection Hl.
Qed.

Lemma ravel_of_rev (dims idx : list N) :
  length dims = length idx ->
  ravel (rev dims) (rev idx) = ravel_rev dims idx.
Proof.
  unfold ravel. revert idx. induction dims as [|d dims IH]; intros [|i idx] Hl; try done.
  cbn [rev ravel_rev]. injection Hl as Hl.
  rewrite ravel_from_app by (by rewrite !length_rev).
  rewrite (IH _ Hl). cbn [ravel_from]. lia.
Qed.

Lemma unravel_rev_ravel_rev (dims idx : list N) :
  in_bounds idx dims -> unravel_rev dims (ravel_rev dims idx) = idx.
Proof.
  induction 1 as [|i d idx dims Hi _ IH]; [done|]. cbn [ravel_rev unravel_rev].
  assert (Hq : ((i + d * ravel_rev dims idx) / d = ravel_rev dims idx)%N)
    by (symmetry; apply (N.div_unique _ _ _ i); lia).
  assert (Hr : ((i + d * ravel_rev dims idx) mod d = i)%N)
    by (symmetry; apply (N.mod_unique _ _ (ravel_rev dims idx) i); lia).
  by rewrite Hq, Hr, IH.
Qed.

Lemma unravel_rev_in_bounds (dims : list N) (k : N) :
  Forall (fun d => (0 < d)%N) dims -> in_bounds (unravel_rev dims k) dims.
Proof.
  intros H. revert k. induction H as [|d dims Hd _ IH]; intros k; cbn [unravel_rev].
  - constructor.
  - constructor; [apply N.mod_upper_bound; lia | apply IH].
Qed.

Lemma in_bounds_rev (idx dims : list N) :
  in_bounds idx dims -> in_bounds (rev idx) (rev dims).
Proof.
  induction 1 as [|i d idx dims Hi _ IH]; [constructor|]. cbn [rev].
  apply Forall2_app; [exact IH | by repeat constructor].
Qed.

Lemma transposed_source_unfold (dims : list N) (k : N) :
  transposed_source dims k = ravel dims (unravel_rev dims k).
Proof. unfold transposed_source, unravel. by rewrite !rev_involutive. Qed.

Lemma transposed_source_bound (dims : list N) (k : N) :
  (k < size_of dims)%N -> (transposed_source dims k < size_of dims)%N.
Proof.
  intros Hk. rewrite transposed_source_unfold.
  pose proof (ravel_from_bound 0 dims (unravel_rev dims k)) as H.
  unfold ravel. rewrite N.add_0_l, N.mul_1_l in H. apply H.
  apply unravel_rev_in_bounds, size_of_pos_dims. lia.
Qed.

Section AnyRank.
Context {A : Type}.
Implicit Types (a array : ndarray A).

Lemma squeeze_well_formed a : well_formed a -> well_formed (squeeze a).
Proof.
  unfold well_formed, squeeze. cbn [shape data]. by rewrite size_of_squeezed.
Qed.

Lemma np_transpose_total a (k : nat) :
  well_formed a -> k ∈ seq 0 (N.to_nat (size_of (shape a))) ->
  is_Some (data a !! N.to_nat (transposed_source (shape a) (N.of_nat k))).
Proof.
  intros Hwf Hk. apply elem_of_seq in Hk. apply lookup_lt_is_Some_2.
  unfold well_formed in Hwf.
  pose proof (transposed_source_bound (shape a) (N.of_nat k)). lia.
Qed.

Lemma np_transpose_well_formed a : well_formed a -> well_formed (np_transpose a).
Proof.
  intros Hwf. unfold well_formed, np_transpose. cbn [shape data].
  rewrite size_of_rev, omap_total_length; [by rewrite length_seq|].
  intros k Hk. by apply np_transpose_total.
Qed.

Lemma apply_transform_well_formed tr a :
  well_formed a -> well_formed (apply_transform tr a).
Proof. destruct tr; [done | apply np_transpose_well_formed]. Qed.

Lemma np_transpose_item a (idx : list N) :
  well_formed a -> in_bounds idx (shape a) ->
  exists x, item a idx = Some x /\ item (np_transpose a) (rev idx) = Some x.
Proof.
  intros Hwf Hb.
  pose proof (ravel_from_bound 0 _ _ Hb) as Hlt.
  rewrite N.add_0_l, N.mul_1_l in Hlt. fold (ravel (shape a) idx) in Hlt.
  destruct (lookup_lt_is_Some_2 (data a) (N.to_nat (ravel (shape a) idx))) as [x Hx].
  { unfold well_formed in Hwf. lia. }
  exists x. split; [exact Hx|].
  unfold item, np_transpose. cbn [shape data].
  assert (Hlen : length (shape a) = length idx) by (symmetry; by eapply Forall2_length).
  rewrite (ravel_of_rev _ _ Hlen).
  assert (Hk : (ravel_rev (shape a) idx < size_of (shape a))%N).
  { rewrite <- (ravel_of_rev _ _ Hlen), <- size_of_rev.
    pose proof (ravel_from_bound 0 (rev (shape a)) (rev idx)) as H.
    rewrite N.add_0_l, N.mul_1_l in H. apply H. by apply in_bounds_rev. }
  rewrite omap_total_lookup by (intros k Hk'; by apply np_transpose_total).
  rewrite lookup_seq_lt by lia. cbn [mbind option_bind plus].
  rewrite N2Nat.id, transposed_source_unfold, unravel_rev_ravel_rev by done.
  exact Hx.
Qed.

Lemma loop_well_formed (items : list (string * ndarray A)) (st : state A) :
  (forall k p, params st !! k = Some p -> well_formed p) ->
  Forall (fun item => well_formed (snd item)) items ->
  forall k p, params (loop items st).1 !! k = Some p -> well_formed p.
Proof.
  revert st. induction items as [|[n a] items IH]; intros st Hst Hit; cbn [loop]; [done|].
  apply Forall_cons in Hit as [Ha Hit]. cbn [snd] in Ha.
  rewrite body_rejection. destruct (rejection (params st) (n, a)); [done|].
  apply IH; [|done]. unfold write_of. cbn [fst snd].
  destruct (resolve n) as [[|v tr]|]; try done.
  cbn [params]. intros k p. destruct (decide (v = k)) as [<-|Hne].
  - rewrite lookup_insert_eq. intros [= <-]. by apply apply_transform_well_formed.
  - rewrite lookup_insert_ne by done. apply Hst.
Qed.

End AnyRank.

(** X9. Whatever the rank of the array: when an iteration assigns through
    a Transpose mapping a well-formed array, the parameter at the target
    path is afterwards a well-formed array whose shape is the reversed
    shape and whose element at the reversed multi-index [rev idx] is the
    source's element at [idx], for every multi-index within the source's
    shape. A vector or a scalar is stored as it is. *)
Theorem transpose_assignment_any_rank {A : Type} (name v_name : string)
    (array : ndarray A) (st st' : state A) :
  resolve name = Ok (Assign v_name Transpose) ->
  well_formed array ->
  body name array st = Ok st' ->
  exists target, params st' !! v_name = Some target /\
    shape target = rev (shape array) /\
    well_formed target /\
    (length (shape array) <= 1 -> target = array) /\
    forall idx, in_bounds idx (shape array) ->
      exists x, item array idx = Some x /\ item target (rev idx) = Some x.
Proof.
  intros Hr Hwf Hb.
  destruct (body_assign_inv _ _ _ _ _ _ Hr Hb) as (pointer & _ & _ & ->).
  exists (np_transpose array). cbn [params apply_transform].
  split; [apply lookup_insert_eq|]. split; [done|].
  split; [by apply np_transpose_well_formed|].
  split; [|intros idx Hi; by apply np_transpose_item].
  intros Hrank. destruct array as [sh d]. unfold np_transpose. cbn [shape data] in *.
  assert (Hrev : rev sh = sh) by (destruct sh as [|? [|? ?]]; [done..|cbn in Hrank; lia]).
  rewrite Hrev. f_equal.
  apply list_eq. intros k. unfold well_formed in Hwf. cbn [shape data] in Hwf.
  destruct (decide (k < length d)) as [Hk|Hk].
  - rewrite omap_total_lookup
      by (intros j Hj; by apply (np_transpose_total {| shape := sh; data := d |})).
    rewrite lookup_seq_lt by lia. cbn [mbind option_bind plus].
    f_equal. rewrite transposed_source_unfold.
    destruct sh as [|n [|? ?]]; [| |cbn in Hrank; lia].
    + unfold size_of in Hwf. cbn in Hwf. cbn. lia.
    + unfold size_of in Hwf. cbn [fold_right] in Hwf. unfold ravel.
      cbn [unravel_rev ravel_from]. rewrite N.mod_small by lia. lia.
  - rewrite !lookup_ge_None_2; [done | lia |].
    rewrite omap_total_length
      by (intros j Hj; by apply (np_transpose_total {| shape := sh; data := d |})).
    rewrite length_seq. lia.
Qed.

Lemma transpose_assignment_any_rank_witness :
  let array := {| shape := [2; 2; 2]%N; data := [0; 1; 2; 3; 4; 5; 6; 7]%N |} in
  let old := {| shape := [2; 2; 2]%N; data := [0; 0; 0; 0; 0; 0; 0; 0]%N |} in
  let st := {| params := {[ "pooler.0.weight" := old ]}; idx := 0 |} in
  let st' := {| params := {[ "pooler.0.weight" := np_transpose array ]}; idx := 1 |} in
  exists target, params st' !! "pooler.0.weight" = Some target /\
    shape target = rev (shape array) /\
    well_formed target /\
    (length (shape array) <= 1 -> target = array) /\
    forall idx, in_bounds idx (shape array) ->
      exists x, item array idx = Some x /\ item target (rev idx) = Some x.
Proof.
  apply (transpose_assignment_any_rank "bert/pooler/dense/kernel" "pooler.0.weight"
           {| shape := [2; 2; 2]%N; data := [0; 1; 2; 3; 4; 5; 6; 7]%N |}
           {| params := {[ "pooler.0.weight" :=
                {| shape := [2; 2; 2]%N; data := [0; 0; 0; 0; 0; 0; 0; 0]%N |} ]};
              idx := 0 |}).
  - reflexivity.
  - reflexivity.
  - vm_compute. reflexivity.
Defined.

(** X10. A pass keeps the tree well formed: when every parameter of the
    tree and every array of the checkpoint has as many elements as its
    shape says, so has every parameter after the pass, whether the pass
    succeeded or failed; squeezing and transposing keep the count. *)
Theorem pass_keeps_well_formed {A : Type}
    (ckpt : list (string * ndarray A)) (tree : gmap string (ndarray A)) :
  (forall k p, tree !! k = Some p -> well_formed p) ->
  Forall (fun item => well_formed (snd item)) ckpt ->
  forall k p, params (_init_from_checkpoint ckpt tree).1 !! k = Some p ->
              well_formed p.
Proof.
  intros Ht Hc. rewrite init_is_loop. apply loop_well_formed; [done|].
  unfold loaded. apply Forall_map. eapply Forall_impl; [exact Hc|].
  intros [n a] Ha. by apply squeeze_well_formed.
Qed.

Lemma pass_keeps_well_formed_witness :
  well_formed {| shape := [3; 2]%N; data := [1; 4; 2; 5; 3; 6]%N |}.
Proof.
  apply (pass_keeps_well_formed
           [ ("bert/pooler/dense/kernel",
              {| shape := [2; 1; 3]%N; data := [1; 2; 3; 4; 5; 6]%N |}) ]
           {[ "pooler.0.weight" :=
                {| shape := [3; 2]%N; data := [0; 0; 0; 0; 0; 0]%N |} ]})
    with (k := "pooler.0.weight").
  - intros k p H. apply lookup_singleton_Some in H as [_ <-]. reflexivity.
  - repeat constructor.
  - vm_compute. reflexivity.
Defined.

(** * [load_pretrained_config] *)

Example load_config_sample :
  Config.load_pretrained_config (fun a b => a +:+ "/" +:+ b)
    (fun n d => Config.Ok (n, d)) tt (fun c _ => Config.Ok c)
    (Config.mk_self None None None None)
    (Some "uncased_L-12") (Some "/models") Config.HNone
  = (Config.mk_self (Some "uncased_L-12") (Some "/models")
       (Some "/models/uncased_L-12")
       (Some ("uncased_L-12", "/models/uncased_L-12")), None).
Proof. reflexivity. Qed.

(** X11. A call without the [cache_dir] argument never completes, even
    when [hparams] supplies a cache directory: it ends with an
    [AttributeError] ([hparams] is [None] or a dict), with the
    [ValueError] (a needed value of [hparams] is [None]) or, when
    [hparams] supplies both values, with the [TypeError] of joining
    [None], because line 58 joins the argument and not [self.cache_dir].
    In every case [pretrained_model_dir] and [_hparams] are left as they
    were and the collaborators' results play no part. *)
Theorem load_config_needs_cache_dir_argument {C D H : Type}
    (path_join : string -> string -> string)
    (_transform_config : string -> string -> Config.result C)
    (default_hparams : D) (HParams : C -> D -> Config.result H)
    (self : Config.self_t) (pretrained_model_name : option string)
    (hparams : Config.hparams_arg) :
  let r := Config.load_pretrained_config path_join _transform_config
             default_hparams HParams self pretrained_model_name None hparams in
  (exists e, r.2 = Some e /\
     (e = Config.AttributeError \/ e = Config.ValueError Config.value_error_msg \/
      e = Config.TypeError)) /\
  Config.self_pretrained_model_dir r.1 = Config.self_pretrained_model_dir self /\
  Config.self_hparams r.1 = Config.self_hparams self /\
  (forall n c, hparams = Config.HObject n (Some c) ->
     (pretrained_model_name <> None \/ n <> None) ->
     r.2 = Some Config.TypeError /\ Config.self_cache_dir r.1 = Some c).
Proof.
  cbv zeta. unfold Config.load_pretrained_config.
  destruct pretrained_model_name as [m|], hparams as [| |[n|] [c|]]; cbn.
  all: split;
    [eexists; split; [reflexivity|];
     first [ left; reflexivity | right; left; reflexivity | right; right; reflexivity ]|].
  all: split; [reflexivity|]. all: split; [reflexivity|].
  all: intros n0 c0 Heq Hor; try discriminate Heq; injection Heq as <- <-.
  all: try (split; reflexivity).
  all: destruct Hor as [Hor|Hor]; by destruct Hor.
Qed.

(** X12. The call completes exactly when the [cache_dir] argument is
    given, a model name is given by the argument or else by [hparams],
    and both collaborators return for that name and the joined directory;
    [self] then holds the name, the cache directory, the joined directory
    and the constructed hyperparameters. When both arguments are given
    [hparams] is not read: it may be [None]. *)
Theorem load_config_completes_iff {C D H : Type}
    (path_join : string -> string -> string)
    (transform_config : string -> string -> Config.result C)
    (default_hparams : D) (HParams : C -> D -> Config.result H)
    (self self' : Config.self_t) (pretrained_model_name cache_dir : option string)
    (hparams : Config.hparams_arg) :
  Config.load_pretrained_config path_join transform_config default_hparams
    HParams self pretrained_model_name cache_dir hparams = (self', None)
  <->
  exists name dir cfg h,
    cache_dir = Some dir /\
    (pretrained_model_name = Some name \/
     (pretrained_model_name = None /\ exists c, hparams = Config.HObject (Some name) c)) /\
    transform_config name (path_join dir name) = Config.Ok cfg /\
    HParams cfg default_hparams = Config.Ok h /\
    self' = Config.mk_self (Some name) (Some dir) (Some (path_join dir name)) (Some h).
Proof.
  unfold Config.load_pretrained_config. split.
  - destruct pretrained_model_name as [m|], cache_dir as [d|],
      hparams as [| |[n|] c]; cbn; try done;
      try (destruct c; cbn; done);
      (destruct (transform_config _ _) as [cfg|] eqn:Ht; [|done]);
      (destruct (HParams cfg default_hparams) as [h|] eqn:Hh; [|done]);
      intros [= <-]; eexists _, _, cfg, h; repeat split; eauto.
  - intros (name & dir & cfg & h & -> & Hn & Ht & Hh & ->).
    destruct Hn as [->|[-> [c ->]]]; cbn; by rewrite Ht, Hh.
Qed.

(** ** Order, skipped entries and staged loading *)

Section Order.
Context {A : Type}.
Implicit Types (st : state A) (tree : gmap string (ndarray A))
  (ckpt items : list (string * ndarray A)) (ws : list (string * ndarray A)).

Lemma forallb_Permutation {B} (f : B -> bool) (l1 l2 : list B) :
  l1 ≡ₚ l2 -> forallb f l1 = forallb f l2.
Proof.
  induction 1 as [|x l1 l2 _ IH|x y l|l1 l2 l3 _ IH1 _ IH2]; cbn [forallb].
  - done.
  - by rewrite IH.
  - by destruct (f x), (f y).
  - by rewrite IH1.
Qed.

Lemma writes_Permutation items1 items2 :
  items1 ≡ₚ items2 -> writes items1 ≡ₚ writes items2.
Proof.
  unfold writes.
  induction 1 as [|x l1 l2 _ IH|x y l|l1 l2 l3 _ IH1 _ IH2]; cbn [omap list_omap].
  - done.
  - destruct (write_of x); [by constructor | done].
  - destruct (write_of x), (write_of y); try done. apply perm_swap.
  - by etransitivity.
Qed.

Lemma last_write_None ws k : ~ In k (map fst ws) -> last_write ws k = None.
Proof.
  induction ws as [|[p a] ws IH]; cbn [map fst In last_write]; [done|].
  intros H. rewrite IH by tauto. case_decide; [|done]. tauto.
Qed.

Lemma last_write_In ws k v :
  NoDup (map fst ws) -> (last_write ws k = Some v <-> In (k, v) ws).
Proof.
  induction ws as [|[p a] ws IH]; cbn [map fst In last_write]; [done|].
  intros Hnd. apply NoDup_cons in Hnd as [Hp Hnd]. specialize (IH Hnd).
  rewrite list_elem_of_In in Hp. split.
  - destruct (last_write ws k) as [a'|] eqn:Hl.
    + intros [= ->]. right. by apply IH.
    + case_decide as Hk; [|done]. intros [= ->]. left. by rewrite Hk.
  - intros [[= -> ->]|Hin].
    + rewrite last_write_None by done. by rewrite decide_True.
    + apply IH in Hin. by rewrite Hin.
Qed.

Lemma last_write_Permutation ws1 ws2 k :
  NoDup (map fst ws1) -> ws1 ≡ₚ ws2 -> last_write ws1 k = last_write ws2 k.
Proof.
  intros Hnd Hp.
  assert (Hnd2 : NoDup (map fst ws2)).
  { assert (Hk : map fst ws1 ≡ₚ map fst ws2) by by apply Permutation_map.
    by rewrite <- Hk. }
  destruct (last_write ws1 k) as [v|] eqn:H1.
  - symmetry. apply last_write_In; [done|]. apply last_write_In in H1; [|done].
    by eapply Permutation_in.
  - destruct (last_write ws2 k) as [v|] eqn:H2; [|done].
    apply last_write_In in H2; [|done]. symmetry in Hp.
    apply (Permutation_in _ Hp) in H2. apply last_write_In in H2; [|done]. congruence.
Qed.

Lemma write_targets ckpt :
  map fst (writes (loaded ckpt)) = omap target_of (map fst ckpt).
Proof.
  induction ckpt as [|[n a] ckpt IH]; [done|].
  change (loaded ((n, a) :: ckpt)) with ((n, squeeze a) :: loaded ckpt).
  change (map fst ((n, a) :: ckpt)) with (n :: map fst ckpt).
  unfold writes in *. cbn [omap list_omap]. unfold write_of at 1, target_of at 1.
  cbn [fst snd].
  destruct (resolve n) as [[|v tr]|]; cbn [map fst]; by rewrite IH.
Qed.

Lemma loop_idx_irrelevant items (m : gmap string (ndarray A)) (i j : nat) :
  (loop items {| params := m; idx := i |}).2 = (loop items {| params := m; idx := j |}).2 /\
  params (loop items {| params := m; idx := i |}).1
  = params (loop items {| params := m; idx := j |}).1 /\
  idx (loop items {| params := m; idx := i |}).1 + j
  = idx (loop items {| params := m; idx := j |}).1 + i.
Proof.
  revert m i j. induction items as [|[n a] items IH]; intros m i j; cbn [loop].
  - cbn. repeat split. lia.
  - rewrite !body_rejection. cbn [params idx].
    destruct (rejection m (n, a)); [cbn; repeat split; lia|].
    destruct (write_of (n, a)) as [[v arr]|]; cbn [params idx]; [|apply IH].
    destruct (IH (<[v:=arr]> m) (S i) (S j)) as (H1 & H2 & H3).
    repeat split; [done..|lia].
Qed.

Lemma loop_skip_filter items st :
  loop (filter (fun item => skipped item.1 = false) items) st = loop items st.
Proof.
  revert st. induction items as [|[n a] items IH]; intros st; [done|].
  destruct (skipped n) eqn:Hs.
  - rewrite filter_cons_False by (cbn; congruence).
    cbn [loop]. by rewrite body_skip.
  - rewrite filter_cons_True by done. cbn [loop].
    destruct (body n a st); [apply IH | done].
Qed.

End Order.

(** X13. The order in which the checkpoint is enumerated does not matter
    when its names are distinct and are names the loader expects (keys of
    the Global and Pooler tables, names under [bert/encoder/layer_]): if
    a pass raises nothing, a pass over any reordering of the checkpoint
    raises nothing either and ends in the same tree with the same
    counter. *)
Theorem pass_order_independent {A : Type}
    (ckpt1 ckpt2 : list (string * ndarray A)) (tree : gmap string (ndarray A))
    (st : state A) :
  ckpt1 ≡ₚ ckpt2 ->
  NoDup (map fst ckpt1) ->
  Forall (fun item => expected_name item.1) ckpt1 ->
  _init_from_checkpoint ckpt1 tree = (st, None) ->
  _init_from_checkpoint ckpt2 tree = (st, None).
Proof.
  intros Hp Hnd Hex H1.
  assert (Hl : loaded ckpt1 ≡ₚ loaded ckpt2) by by apply Permutation_map.
  assert (Hw : NoDup (map fst (writes (loaded ckpt1)))).
  { rewrite write_targets. apply targets_NoDup; [done|]. by apply Forall_map. }
  rewrite init_is_loop in *.
  pose proof (proj1 (loop_success_iff _ _) (f_equal snd H1)) as Hok.
  rewrite (forallb_Permutation _ _ _ Hl) in Hok.
  apply loop_success_iff in Hok.
  destruct (loop (loaded ckpt2) _) as [st2 o] eqn:H2. cbn [snd] in Hok. subst o.
  f_equal. apply loop_result in H1 as [Hi1 Hr1]. apply loop_result in H2 as [Hi2 Hr2].
  pose proof (writes_Permutation _ _ Hl) as Hwp.
  destruct st as [m i], st2 as [m2 i2]. cbn [params idx] in *. f_equal.
  - apply map_eq. intros k. rewrite Hr1, Hr2.
    by rewrite (last_write_Permutation _ _ k Hw Hwp).
  - rewrite Hi1, Hi2. by apply Permutation_length.
Qed.

Lemma pass_order_independent_witness :
  let bias := {| shape := [2%N]; data := [1; 2]%N |} in
  let kernel := {| shape := [2; 3]%N; data := [1; 2; 3; 4; 5; 6]%N |} in
  let tree : gmap string (ndarray N) :=
    {[ "encoder.self_attns.3.K_dense.bias" := {| shape := [2%N]; data := [0; 0]%N |};
       "pooler.0.weight" := {| shape := [3; 2]%N; data := [0; 0; 0; 0; 0; 0]%N |} ]} in
  _init_from_checkpoint
    [ ("bert/pooler/dense/kernel", kernel);
      ("bert/encoder/layer_3/attention/self/key/bias", bias) ] tree
  = ({| params := {[ "encoder.self_attns.3.K_dense.bias" := bias;
                     "pooler.0.weight" := np_transpose kernel ]}; idx := 2 |}, None).
Proof.
  apply (pass_order_independent
           [ ("bert/encoder/layer_3/attention/self/key/bias",
              {| shape := [2%N]; data := [1; 2]%N |});
             ("bert/pooler/dense/kernel",
              {| shape := [2; 3]%N; data := [1; 2; 3; 4; 5; 6]%N |}) ]).
  - apply perm_swap.
  - apply (bool_decide_unpack _). vm_compute. reflexivity.
  - apply List.Forall_cons; [right; eexists; reflexivity|].
    apply List.Forall_cons; [left; vm_compute; tauto|]. apply List.Forall_nil.
  - vm_compute. reflexivity.
Defined.

(** X14. Skipped entries are inert: a pass over the checkpoint with every
    entry removed whose name the skip filter accepts has the very outcome
    of the pass over the whole checkpoint, the same tree, counter and
    exception. *)
Theorem skipped_entries_are_inert {A : Type}
    (ckpt : list (string * ndarray A)) (tree : gmap string (ndarray A)) :
  _init_from_checkpoint (filter (fun item => skipped item.1 = false) ckpt) tree
  = _init_from_checkpoint ckpt tree.
Proof.
  rewrite !init_is_loop. rewrite <- (loop_skip_filter (loaded ckpt)).
  f_equal. unfold loaded.
  induction ckpt as [|[n a] ckpt IH]; [done|]. cbn [map fst snd].
  destruct (skipped n) eqn:Hs.
  - rewrite !filter_cons_False by (cbn; congruence). exact IH.
  - rewrite !filter_cons_True by done. cbn [map fst snd]. by rewrite IH.
Qed.

(** X15. Loading in stages: when a pass over a first checkpoint raised
    nothing, a pass over a second checkpoint started from the tree it
    produced ends with the tree and the exception of one pass over the
    two checkpoints concatenated, whose counter is the sum of the two. *)
Theorem staged_passes_compose {A : Type}
    (ckpt1 ckpt2 : list (string * ndarray A)) (tree : gmap string (ndarray A))
    (st1 : state A) :
  _init_from_checkpoint ckpt1 tree = (st1, None) ->
  (_init_from_checkpoint (ckpt1 ++ ckpt2)%list tree).2
  = (_init_from_checkpoint ckpt2 (params st1)).2 /\
  params (_init_from_checkpoint (ckpt1 ++ ckpt2)%list tree).1
  = params (_init_from_checkpoint ckpt2 (params st1)).1 /\
  idx (_init_from_checkpoint (ckpt1 ++ ckpt2)%list tree).1
  = idx st1 + idx (_init_from_checkpoint ckpt2 (params st1)).1.
Proof.
  rewrite !init_is_loop. intros H1. unfold loaded at 1 3 5. rewrite map_app.
  fold (loaded ckpt1) (loaded ckpt2). rewrite (loop_app _ _ _ _ H1).
  destruct st1 as [m i]. cbn [params idx].
  destruct (loop_idx_irrelevant (loaded ckpt2) m i 0) as (Ha & Hb & Hc).
  repeat split; [done..|lia].
Qed.

Lemma staged_passes_compose_witness :
  let bias := {| shape := [2%N]; data := [1; 2]%N |} in
  let kernel := {| shape := [2; 3]%N; data := [1; 2; 3; 4; 5; 6]%N |} in
  let tree : gmap string (ndarray N) :=
    {[ "pooler.0.bias" := {| shape := [2%N]; data := [0; 0]%N |};
       "pooler.0.weight" := {| shape := [2; 3]%N; data := [0; 0; 0; 0; 0; 0]%N |} ]} in
  let st1 := {| params := <["pooler.0.bias" := bias]> tree; idx := 1 |} in
  let c1 := [ ("bert/pooler/dense/bias", bias) ] in
  let c2 := [ ("bert/pooler/dense/kernel", kernel) ] in
  (_init_from_checkpoint (c1 ++ c2)%list tree).2
  = (_init_from_checkpoint c2 (params st1)).2 /\
  params (_init_from_checkpoint (c1 ++ c2)%list tree).1
  = params (_init_from_checkpoint c2 (params st1)).1 /\
  idx (_init_from_checkpoint (c1 ++ c2)%list tree).1
  = idx st1 + idx (_init_from_checkpoint c2 (params st1)).1.
Proof.
  apply (staged_passes_compose
           [ ("bert/pooler/dense/bias", {| shape := [2%N]; data := [1; 2]%N |}) ]
           [ ("bert/pooler/dense/kernel",
              {| shape := [2; 3]%N; data := [1; 2; 3; 4; 5; 6]%N |}) ]
           {[ "pooler.0.bias" := {| shape := [2%N]; data := [0; 0]%N |};
              "pooler.0.weight" :=
                {| shape := [2; 3]%N; data := [0; 0; 0; 0; 0; 0]%N |} ]}).
  vm_compute. reflexivity.
Defined.

(** ** What a pass cannot load *)

Section Limits.
Context {A : Type}.
Implicit Types (st : state A) (tree : gmap string (ndarray A))
  (ckpt items : list (string * ndarray A)).

Lemma loop_frame items st k :
  (forall item v arr, In item items -> write_of item = Some (v, arr) -> v <> k) ->
  params (loop items st).1 !! k = params st !! k.
Proof.
  revert st. induction items as [|[n a] items IH]; intros st Hk; cbn [loop]; [done|].
  rewrite body_rejection. destruct (rejection (params st) (n, a)); [done|].
  rewrite IH by (intros item v arr Hin; apply Hk; by right).
  destruct (write_of (n, a)) as [[v arr]|] eqn:Hw; [|done].
  cbn [params]. apply lookup_insert_ne. eapply Hk; [by left | exact Hw].
Qed.

Lemma write_of_target (item : string * ndarray A) v arr :
  write_of item = Some (v, arr) ->
  In v (map snd (global_tensor_map ++ pooler_map)%list) \/
  Py.startswith v "encoder." = true.
Proof.
  unfold write_of. destruct (resolve item.1) as [[|p tr]|] eqn:Hr; try done.
  intros [= -> _]. apply resolve_assign_inv in Hr as [Hin|(_ & _ & Hl)].
  - left. change v with (snd (item.1, v)). by apply in_map.
  - right. destruct Hl as (s0 & s1 & seg & rest & tmpl & _ & _ & ->).
    apply startswith_app.
Qed.

Lemma squeezed_shape_no_unit tr (raw : ndarray A) :
  ~ In 1%N (shape (apply_transform tr (squeeze raw))).
Proof.
  assert (H : ~ In 1%N (filter (fun d => d <> 1%N) (shape raw))).
  { rewrite <- list_elem_of_In, list_elem_of_filter. tauto. }
  destruct tr; cbn [apply_transform np_transpose squeeze shape]; [done|].
  by rewrite <- in_rev.
Qed.

End Limits.

(** X16. A pass only ever writes to the seven target paths of the Global
    and Pooler tables and to paths that start with [encoder.]: every other
    parameter of the tree, such as those of a classification layer, holds
    after the pass, successful or not, what it held before. *)
Theorem pass_leaves_other_parameters {A : Type}
    (ckpt : list (string * ndarray A)) (tree : gmap string (ndarray A))
    (k : string) :
  ~ In k (map snd (global_tensor_map ++ pooler_map)%list) ->
  Py.startswith k "encoder." = false ->
  params (_init_from_checkpoint ckpt tree).1 !! k = tree !! k.
Proof.
  intros Hk He. rewrite init_is_loop.
  rewrite loop_frame; [done|].
  intros item v arr _ Hw ->. apply write_of_target in Hw as [Hin|Hs]; [done | congruence].
Qed.

Lemma pass_leaves_other_parameters_witness :
  let head := {| shape := [2%N]; data := [5; 6]%N |} in
  let tree : gmap string (ndarray N) :=
    {[ "_logits_layer.bias" := head;
       "pooler.0.bias" := {| shape := [2%N]; data := [0; 0]%N |} ]} in
  params (_init_from_checkpoint
            [ ("bert/pooler/dense/bias", {| shape := [2%N]; data := [1; 2]%N |});
              ("output_bias", {| shape := [2%N]; data := [3; 4]%N |}) ] tree).1
    !! "_logits_layer.bias" = tree !! "_logits_layer.bias".
Proof.
  apply (pass_leaves_other_parameters
           [ ("bert/pooler/dense/bias", {| shape := [2%N]; data := [1; 2]%N |});
             ("output_bias", {| shape := [2%N]; data := [3; 4]%N |}) ]
           {[ "_logits_layer.bias" := {| shape := [2%N]; data := [5; 6]%N |};
              "pooler.0.bias" := {| shape := [2%N]; data := [0; 0]%N |} ]}
           "_logits_layer.bias").
  - vm_compute. intuition discriminate.
  - reflexivity.
Defined.

(** X17. A parameter with an axis of length one cannot be loaded: the
    array is squeezed before the shape check, so it has no such axis left
    and the check fails. A pass over a checkpoint that holds an entry
    resolving to such a parameter never completes. *)
Theorem unit_axis_parameter_never_loads {A : Type}
    (ckpt : list (string * ndarray A)) (tree : gmap string (ndarray A))
    (name v_name : string) (tr : transform) (raw pointer : ndarray A) :
  In (name, raw) ckpt ->
  resolve name = Ok (Assign v_name tr) ->
  tree !! v_name = Some pointer ->
  In 1%N (shape pointer) ->
  rejection tree (name, squeeze raw) = Some AssertionError /\
  exists e, (_init_from_checkpoint ckpt tree).2 = Some e.
Proof.
  intros Hin Hr Hp H1.
  assert (Hrej : rejection tree (name, squeeze raw) = Some AssertionError).
  { unfold rejection. cbn [fst snd]. rewrite Hr, Hp.
    case_decide as Hs; [|done]. exfalso.
    rewrite Hs in H1. by apply squeezed_shape_no_unit in H1. }
  split; [done|].
  destruct (_init_from_checkpoint ckpt tree).2 as [e|] eqn:Ho; [by exists e|].
  exfalso. apply pass_succeeds_aux in Ho. rewrite forallb_forall in Ho.
  specialize (Ho (name, squeeze raw)).
  rewrite accepted_rejection, Hrej in Ho. assert (Some AssertionError = None); [|done].
  apply Ho. unfold loaded. change (name, squeeze raw) with
    ((fun na : string * ndarray A => (na.1, squeeze na.2)) (name, raw)).
  by apply in_map.
Qed.

Lemma unit_axis_parameter_never_loads_witness :
  let raw := {| shape := [1; 3]%N; data := [1; 2; 3]%N |} in
  let pointer := {| shape := [1; 3]%N; data := [0; 0; 0]%N |} in
  let tree : gmap string (ndarray N) := {[ "segment_embedder._embedding" := pointer ]} in
  rejection tree ("bert/embeddings/token_type_embeddings", squeeze raw)
  = Some AssertionError /\
  exists e, (_init_from_checkpoint
               [("bert/embeddings/token_type_embeddings", raw)] tree).2 = Some e.
Proof.
  apply (unit_axis_parameter_never_loads
           [("bert/embeddings/token_type_embeddings",
             {| shape := [1; 3]%N; data := [1; 2; 3]%N |})]
           {[ "segment_embedder._embedding" :=
                {| shape := [1; 3]%N; data := [0; 0; 0]%N |} ]}
           "bert/embeddings/token_type_embeddings" "segment_embedder._embedding"
           Identity
           {| shape := [1; 3]%N; data := [1; 2; 3]%N |}
           {| shape := [1; 3]%N; data := [0; 0; 0]%N |}).
  - left. reflexivity.
  - reflexivity.
  - reflexivity.
  - left. reflexivity.
Defined.
